(** * The research agent of backend_node: citation utilities, reducers,
      nodes and routing, embedded from the TypeScript sources.

    Conventions of the embedding.
    - A JavaScript string is a [string]: the sequence of its code units.
    - A JavaScript number is used by this code only for offsets, indices,
      counters and lengths; it is an integer [Z] here.  Template literals
      print such a number in decimal ([pretty]), as JavaScript does for
      integers below 10^21 in absolute value.
    - An optional or nullable field is an [option].
    - [Record<string, string>] is a plain object: a finite map
      [gmap string string] holds the properties the code has set, and a
      property read ([JS.get]) gives the property the object holds or,
      for a name the object does not hold, the member it inherits from
      Object.prototype under that name, if there is one.
    - [Set<string>] is a [gset string].
    - Calls to the language model and to the search service are inputs of
      the node functions: each node takes the outcome of its call. *)

From stdpp Require Import base numbers option list sorting strings pretty gmap.
From Stdlib Require Import Ascii ZArith Lia.

Open Scope Z_scope.

(** ** JavaScript strings *)
Module JS.

(** Truthiness of a string: only the empty string is falsy. *)
Definition truthy (s : string) : bool :=
  match s with EmptyString => false | String _ _ => true end.

(** Truthiness of an optional string ([undefined] is falsy). *)
Definition truthyOpt (o : option string) : bool :=
  match o with Some s => truthy s | None => false end.

(** [a || b] on strings. *)
Definition orElse (a b : string) : string := if truthy a then a else b.

(** A relative index of [slice], clamped into [0 .. len]. *)
Definition relIndex (len : nat) (i : Z) : nat :=
  if i <? 0 then Z.to_nat (Z.max (Z.of_nat len + i) 0)
  else Z.to_nat (Z.min i (Z.of_nat len)).

(** [s.slice(start, end)]; [end] omitted is the length. *)
Definition slice (s : string) (start : Z) (end_ : option Z) : string :=
  let len := String.length s in
  let from := relIndex len start in
  let to := match end_ with Some e => relIndex len e | None => len end in
  String.substring from (to - from) s.

(** [s.includes(pat)]. *)
Fixpoint includes (s pat : string) : bool :=
  String.prefix pat s ||
  match s with
  | EmptyString => false
  | String _ s' => includes s' pat
  end.

(** The characters of [s] after its first [n]. *)
Fixpoint dropStr (n : nat) (s : string) : string :=
  match n, s with
  | O, _ => s
  | S n', String _ s' => dropStr n' s'
  | S _, EmptyString => EmptyString
  end.

(** The replacement text of one match, for a pattern without capture
    groups: [$$] is a dollar, [$&] the match, [$`] the text before the
    match, [$'] the text after it; any other [$] stands for itself. *)
Fixpoint getSubstitution (matched before after template : string) : string :=
  match template with
  | EmptyString => EmptyString
  | String c rest =>
      if Ascii.eqb c "$"%char then
        match rest with
        | String d rest' =>
            if Ascii.eqb d "$"%char then
              String "$"%char (getSubstitution matched before after rest')
            else if Ascii.eqb d "&"%char then
              matched +:+ getSubstitution matched before after rest'
            else if Ascii.eqb d "`"%char then
              before +:+ getSubstitution matched before after rest'
            else if Ascii.eqb d "'"%char then
              after +:+ getSubstitution matched before after rest'
            else String c (getSubstitution matched before after rest)
        | EmptyString => String c EmptyString
        end
      else String c (getSubstitution matched before after rest)
  end.

(** The scan of a global replace of the literal, non-empty [pat].
    [seen] is the text already passed, reversed; [skip] counts the
    characters of the current match still to be passed over. *)
Fixpoint replaceScan (pat template : string) (seen : string) (skip : nat)
    (s : string) : string :=
  match s with
  | EmptyString => EmptyString
  | String c s' =>
      match skip with
      | S k => replaceScan pat template (String c seen) k s'
      | O =>
          if String.prefix pat s then
            getSubstitution pat (String.rev seen)
              (dropStr (String.length pat) s) template
            +:+ replaceScan pat template (String c seen)
                  (String.length pat - 1) s'
          else String c (replaceScan pat template (String c seen) O s')
      end
  end.

(** [s.replace(new RegExp(escaped pat, 'g'), template)] for a non-empty
    [pat] whose regular-expression characters were escaped: every
    occurrence of the literal [pat], left to right, without overlap. *)
Definition replaceAllLiteral (s pat template : string) : string :=
  replaceScan pat template EmptyString O s.

(** [s.split('.')]. *)
Fixpoint splitDot (cur : string) (s : string) : list string :=
  match s with
  | EmptyString => [String.rev cur]
  | String c s' =>
      if Ascii.eqb c "."%char then String.rev cur :: splitDot EmptyString s'
      else splitDot (String c cur) s'
  end.

(** [parts.join(sep)]. *)
Fixpoint join (sep : string) (parts : list string) : string :=
  match parts with
  | [] => EmptyString
  | [p] => p
  | p :: ps => p +:+ sep +:+ join sep ps
  end.

(** [arr.slice(0, -1)]: all but the last element. *)
Definition dropLast {A} (l : list A) : list A := take (length l - 1)%nat l.

(** The names of the members a plain object inherits from
    Object.prototype in Node. *)
Definition objectPrototypeKeys : list string :=
  [ "constructor"; "__defineGetter__"; "__defineSetter__"; "hasOwnProperty";
    "__lookupGetter__"; "__lookupSetter__"; "isPrototypeOf";
    "propertyIsEnumerable"; "toString"; "valueOf"; "__proto__";
    "toLocaleString" ].

Definition inherited (key : string) : bool :=
  bool_decide (key ∈ objectPrototypeKeys).

(** What [o[key]] gives on a plain object [o] whose own properties are
    strings: the string the object holds, the member of Object.prototype
    it inherits (a function, or Object.prototype itself under
    [__proto__]), or [undefined]. *)
Inductive Property :=
  | Own (s : string)
  | Inherited (key : string)
  | Absent.

Definition get (o : gmap string string) (key : string) : Property :=
  match o !! key with
  | Some s => Own s
  | None => if inherited key then Inherited key else Absent
  end.

(** Truthiness of what a property read gives: functions and objects are
    truthy. *)
Definition truthyProperty (p : Property) : bool :=
  match p with
  | Own s => truthy s
  | Inherited _ => true
  | Absent => false
  end.

(** The string an inherited member converts to in a template literal, as
    Node prints it: the source text of a built-in function, and
    [[object Object]] for Object.prototype. *)
Definition memberText (key : string) : string :=
  if decide (key = "__proto__") then "[object Object]"
  else if decide (key = "constructor")
       then "function Object() { [native code] }"
       else "function " +:+ key +:+ "() { [native code] }".

End JS.

(** ** types/index.ts *)

Record SourceInfo := {
  label : string;
  shortUrl : string;
  value : string
}.

Record CitationInfo := {
  startIndex : Z;
  endIndex : Z;
  segments : list SourceInfo
}.

Record Web := {
  uri : option string;
  title : option string
}.

Record GroundingChunk := { web : option Web }.

Record Segment := {
  seg_startIndex : option Z;
  seg_endIndex : option Z
}.

Record GroundingSupport := {
  segment : option Segment;
  groundingChunkIndices : option (list Z)
}.

Record GroundingMetadata := {
  groundingChuncks : option (list GroundingChunk);
  groundingSupports : option (list GroundingSupport)
}.

Record Candidate := { groundingMetadata : option GroundingMetadata }.

(** What a [throw] carries: an [Error] with its message, or another value. *)
Inductive Thrown :=
  | ErrorObject (message : string)
  | OtherValue.

(** [text()] returns the text or throws. *)
Record GoogleAIResponse := {
  candidates : option (list Candidate);
  text : Thrown + string
}.

Global Instance SourceInfo_eq_dec : EqDecision SourceInfo.
Proof. solve_decision. Defined.

Global Instance CitationInfo_eq_dec : EqDecision CitationInfo.
Proof. solve_decision. Defined.

(** ** agent/utils.ts *)
Module Utils.

Definition prefix : string := "https://vertexaisearch.cloud.google.com/id/".

(** [`${prefix}${id}-${idx}`] *)
Definition shortId (id : Z) (idx : nat) : string :=
  prefix +:+ pretty id +:+ "-" +:+ pretty idx.

(** [site.web?.uri || ''] *)
Definition chunkUrl (site : GroundingChunk) : string :=
  match web site with
  | Some w => match uri w with Some u => u | None => "" end
  | None => ""
  end.

(** The body of the [forEach] of [resolveUrls], from index [idx] on. *)
Fixpoint resolveFrom (id : Z) (idx : nat) (urls : list string)
    (resolvedMap : gmap string string) : gmap string string :=
  match urls with
  | [] => resolvedMap
  | url :: rest =>
      resolveFrom id (S idx) rest
        (if JS.truthy url
            && negb (JS.truthyProperty (JS.get resolvedMap url))
         then <[url := shortId id idx]> resolvedMap
         else resolvedMap)
  end.

Definition resolveUrls (urlsToResolve : list GroundingChunk) (id : Z)
    : gmap string string :=
  let urls := chunkUrl <$> urlsToResolve in
  resolveFrom id 0 urls ∅.

(** The comparator of [insertCitationMarkers]. *)
Definition compareCitations (a b : CitationInfo) : Z :=
  if negb (endIndex b =? endIndex a) then endIndex b - endIndex a
  else startIndex b - startIndex a.

(** [Array.prototype.sort] is stable: an element is placed before the
    first element it does not have to follow. *)
Fixpoint sortInsert {A} (cmp : A → A → Z) (x : A) (l : list A) : list A :=
  match l with
  | [] => [x]
  | y :: l' => if cmp x y <=? 0 then x :: y :: l' else y :: sortInsert cmp x l'
  end.

Fixpoint stableSort {A} (cmp : A → A → Z) (l : list A) : list A :=
  match l with
  | [] => []
  | x :: l' => sortInsert cmp x (stableSort cmp l')
  end.

(** The marker group of one citation. *)
Definition markerOf (citationInfo : CitationInfo) : string :=
  foldl (λ markerToInsert seg,
           markerToInsert +:+ " [" +:+ label seg +:+ "](" +:+ shortUrl seg +:+ ")")
        "" (segments citationInfo).

(** One turn of the splicing loop. *)
Definition spliceMarker (modifiedText : string) (citationInfo : CitationInfo)
    : string :=
  let endIdx := endIndex citationInfo in
  JS.slice modifiedText 0 (Some endIdx) +:+ markerOf citationInfo
    +:+ JS.slice modifiedText endIdx None.

Definition insertCitationMarkers (text : string)
    (citationsList : list CitationInfo) : string :=
  let sortedCitations := stableSort compareCitations citationsList in
  foldl spliceMarker text sortedCitations.

(** [groundingChuncks?.[ind]]: [undefined] when the list is absent or
    [ind] is not one of its indices. *)
Definition chunkAt (chunks : option (list GroundingChunk)) (ind : Z)
    : option GroundingChunk :=
  match chunks with
  | Some l => if ind <? 0 then None else l !! Z.to_nat ind
  | None => None
  end.

(** [title?.split('.').slice(0, -1).join('.') || title || 'Source'] *)
Definition labelOf (title : option string) : string :=
  match title with
  | None => "Source"
  | Some t =>
      JS.orElse (JS.orElse (JS.join "." (JS.dropLast (JS.splitDot "" t))) t)
        "Source"
  end.

(** The body of the loop over [groundingChunkIndices].  For a URL that
    the map does not hold and that names a member of Object.prototype,
    [resolvedUrlsMap[chunk.web.uri]] is that member, which is truthy, and a
    source is pushed with the member as its short URL; the record holds the
    string the member converts to, which is how the template literal of
    [insertCitationMarkers] reads it.  Code that calls string methods on a
    short URL, as [finalizeAnswer] does, is modelled for the short URLs
    that are strings. *)
Definition pushSource (chunks : option (list GroundingChunk))
    (resolvedUrlsMap : gmap string string)
    (segs : list SourceInfo) (ind : Z) : list SourceInfo :=
  match chunkAt chunks ind with
  | None => segs
  | Some chunk =>
      match web chunk with
      | None => segs
      | Some w =>
          match uri w with
          | None => segs
          | Some u =>
              if negb (JS.truthy u) then segs
              else
                match JS.get resolvedUrlsMap u with
                | JS.Own resolvedUrl =>
                    if JS.truthy resolvedUrl then
                      segs ++ [ {| label := labelOf (title w);
                                   shortUrl := resolvedUrl;
                                   value := u |} ]
                    else segs
                | JS.Inherited member =>
                    segs ++ [ {| label := labelOf (title w);
                                 shortUrl := JS.memberText member;
                                 value := u |} ]
                | JS.Absent => segs
                end
          end
      end
  end.

(** The body of the loop over [groundingSupports]: the citation pushed
    for one support entry, if any. *)
Definition citationOf (chunks : option (list GroundingChunk))
    (resolvedUrlsMap : gmap string string) (support : GroundingSupport)
    : option CitationInfo :=
  match segment support with
  | None => None
  | Some seg =>
      let start := match seg_startIndex seg with Some s => s | None => 0 end in
      match seg_endIndex seg with
      | None => None
      | Some e =>
          let segs :=
            match groundingChunkIndices support with
            | Some inds => foldl (pushSource chunks resolvedUrlsMap) [] inds
            | None => []
            end in
          if (0 <? length segs)%nat
          then Some {| startIndex := start; endIndex := e; segments := segs |}
          else None
      end
  end.

Definition pushCitation (chunks : option (list GroundingChunk))
    (resolvedUrlsMap : gmap string string)
    (citations : list CitationInfo) (support : GroundingSupport)
    : list CitationInfo :=
  match citationOf chunks resolvedUrlsMap support with
  | Some citation => citations ++ [citation]
  | None => citations
  end.

Definition getCitations (response : GoogleAIResponse)
    (resolvedUrlsMap : gmap string string) : list CitationInfo :=
  match candidates response with
  | None | Some [] => []
  | Some (candidate :: _) =>
      match groundingMetadata candidate with
      | None => []
      | Some metadata =>
          match groundingSupports metadata with
          | None => []
          | Some supports =>
              foldl (pushCitation (groundingChuncks metadata) resolvedUrlsMap)
                [] supports
          end
      end
  end.

(** The loop that keeps the first source of every [value]. *)
Definition keepUnseen (acc : list SourceInfo * gset string) (source : SourceInfo)
    : list SourceInfo * gset string :=
  let '(uniqueSources, seenUrls) := acc in
  if decide (value source ∈ seenUrls) then (uniqueSources, seenUrls)
  else (uniqueSources ++ [source], {[ value source ]} ∪ seenUrls).

Definition uniqueByValue (sources : list SourceInfo) : list SourceInfo :=
  (foldl keepUnseen ([], ∅) sources).1.

Definition newline : string := String "010"%char EmptyString.

(** [`[${index + 1}] ${source.label}: ${source.value}`] *)
Definition sourceLine (index : nat) (source : SourceInfo) : string :=
  "[" +:+ pretty (index + 1)%nat +:+ "] " +:+ label source +:+ ": "
    +:+ value source.

Definition formatSources (sources : list SourceInfo) : string :=
  match sources with
  | [] => ""
  | _ :: _ => JS.join newline (imap sourceLine (uniqueByValue sources))
  end.

End Utils.

(** ** agent/state.ts *)
Module StateReducers.

(** What a node returns for an accumulated field: nothing, one value, or
    an array. *)
Inductive Update (T : Type) :=
  | Undefined
  | Single (x : T)
  | Many (xs : list T).
Global Arguments Undefined {T}.
Global Arguments Single {T} x.
Global Arguments Many {T} xs.

(** [arrayAccumulator]; [truthyT] is the truthiness of a single value. *)
Definition arrayAccumulator {T} (truthyT : T → bool)
    (current : option (list T)) (update : Update T) : list T :=
  let current := match current with Some l => l | None => [] end in
  match update with
  | Undefined => current
  | Single x => if truthyT x then current ++ [x] else current
  | Many xs => current ++ xs
  end.

(** [messages]: the same merge on the transcript. *)
Definition messages {T} (truthyT : T → bool)
    (current : option (list T)) (update : Update T) : list T :=
  let current := match current with Some l => l | None => [] end in
  match update with
  | Undefined => current
  | Single x => if truthyT x then current ++ [x] else current
  | Many xs => current ++ xs
  end.

(** [simpleValue] *)
Definition simpleValue {T} (current : T) (update : option T) : T :=
  match update with Some u => u | None => current end.

End StateReducers.

(** ** The state of a run (types/index.ts, agent/graph.ts) *)

Inductive Message :=
  | HumanMessage (content : string)
  | AIMessage (content : string).

Record Query := {
  query : string;
  rationale : string
}.

(** [maxResearchLoops] is optional: [evaluateResearch] falls back to the
    configuration when it is [null] or [undefined].  The other fields have
    their defaults of [GraphState]; where the code writes [x || []] or
    [x || 0] the absent value and the default behave alike. *)
Record OverallState := {
  messages : list Message;
  searchQuery : list string;
  webResearchResult : list string;
  sourcesGathered : list SourceInfo;
  initialSearchQueryCount : Z;
  maxResearchLoops : option Z;
  researchLoopCount : Z;
  reasoningModel : string;
  queryList : list Query;
  isSufficient : bool;
  knowledgeGap : string;
  followUpQueries : list string;
  numberOfRanQueries : Z
}.

(** A partial update returned by a node. *)
Record PartialState := {
  u_messages : StateReducers.Update Message;
  u_searchQuery : StateReducers.Update string;
  u_webResearchResult : StateReducers.Update string;
  u_sourcesGathered : StateReducers.Update SourceInfo;
  u_initialSearchQueryCount : option Z;
  u_maxResearchLoops : option Z;
  u_researchLoopCount : option Z;
  u_reasoningModel : option string;
  u_queryList : option (list Query);
  u_isSufficient : option bool;
  u_knowledgeGap : option string;
  u_followUpQueries : StateReducers.Update string;
  u_numberOfRanQueries : option Z
}.

(** The initial values of [GraphState]. *)
Definition defaultState : OverallState := {|
  messages := [];
  searchQuery := [];
  webResearchResult := [];
  sourcesGathered := [];
  initialSearchQueryCount := 0;
  maxResearchLoops := Some 2;
  researchLoopCount := 0;
  reasoningModel := "gemini-2.0-flash";
  queryList := [];
  isSufficient := false;
  knowledgeGap := "";
  followUpQueries := [];
  numberOfRanQueries := 0
|}.

(** The reducer registered for each field of [GraphState]. *)
Definition applyUpdate (st : OverallState) (u : PartialState) : OverallState := {|
  messages :=
    StateReducers.messages (λ _, true) (Some (messages st)) (u_messages u);
  searchQuery :=
    StateReducers.arrayAccumulator JS.truthy (Some (searchQuery st))
      (u_searchQuery u);
  webResearchResult :=
    StateReducers.arrayAccumulator JS.truthy (Some (webResearchResult st))
      (u_webResearchResult u);
  sourcesGathered :=
    StateReducers.arrayAccumulator (λ _, true) (Some (sourcesGathered st))
      (u_sourcesGathered u);
  initialSearchQueryCount :=
    StateReducers.simpleValue (initialSearchQueryCount st)
      (u_initialSearchQueryCount u);
  maxResearchLoops :=
    StateReducers.simpleValue (maxResearchLoops st)
      (Some <$> u_maxResearchLoops u);
  researchLoopCount :=
    StateReducers.simpleValue (researchLoopCount st) (u_researchLoopCount u);
  reasoningModel :=
    StateReducers.simpleValue (reasoningModel st) (u_reasoningModel u);
  queryList := StateReducers.simpleValue (queryList st) (u_queryList u);
  isSufficient := StateReducers.simpleValue (isSufficient st) (u_isSufficient u);
  knowledgeGap := StateReducers.simpleValue (knowledgeGap st) (u_knowledgeGap u);
  followUpQueries :=
    StateReducers.arrayAccumulator JS.truthy (Some (followUpQueries st))
      (u_followUpQueries u);
  numberOfRanQueries :=
    StateReducers.simpleValue (numberOfRanQueries st) (u_numberOfRanQueries u)
|}.

(** ** agent/nodes.ts *)

(** The fields of [Configuration] the nodes read.  The module of the
    nodes imports config/index.ts, which builds a [Configuration] when it
    is loaded and throws without GOOGLE_API_KEY; so wherever a node runs,
    [Configuration.fromRunnableConfig] returns. *)
Record Configuration := {
  queryGeneratorModel : string;
  reflectionModel : string;
  answerModel : string;
  numberOfInitialQueries : Z;
  cfg_maxResearchLoops : Z
}.

Record SearchQueryListResponse := {
  sq_query : list string;
  sq_rationale : string
}.

Record ReflectionResponse := {
  r_isSufficient : bool;
  r_knowledgeGap : string;
  r_followUpQueries : list string
}.

(** The arguments of one fan-out branch. *)
Record WebSearchState := {
  ws_searchQuery : string;
  ws_id : Z
}.

Record SendObject := {
  node : string;
  args : WebSearchState
}.

(** What a routing function returns. *)
Inductive Route :=
  | NodeName (name : string)
  | Sends (items : list SendObject).

Module Nodes.

(** [generateQuery], given the structured output of the model. *)
Definition generateQuery (state : OverallState) (configuration : Configuration)
    (result : SearchQueryListResponse) : PartialState :=
  {| u_messages := StateReducers.Undefined;
     u_searchQuery := StateReducers.Undefined;
     u_webResearchResult := StateReducers.Undefined;
     u_sourcesGathered := StateReducers.Undefined;
     u_initialSearchQueryCount := None;
     u_maxResearchLoops := None;
     u_researchLoopCount := None;
     u_reasoningModel := None;
     u_queryList :=
       Some ((λ q, {| query := q; rationale := sq_rationale result |})
               <$> sq_query result);
     u_isSufficient := None;
     u_knowledgeGap := None;
     u_followUpQueries := StateReducers.Undefined;
     u_numberOfRanQueries := None |}.

Definition continueToWebResearch (state : OverallState) : list SendObject :=
  imap (λ idx searchQuery,
          {| node := "webResearch";
             args := {| ws_searchQuery := query searchQuery;
                        ws_id := Z.of_nat idx |} |})
       (queryList state).

(** [error instanceof Error ? error.message : 'Unknown error'] *)
Definition errorMessageOf (error : Thrown) : string :=
  match error with
  | ErrorObject message => message
  | OtherValue => "Unknown error"
  end.

Definition dquote : string := String "034"%char EmptyString.

(** The update of the [catch] branch of [webResearch]. *)
Definition webResearchFallback (state : WebSearchState) (error : Thrown)
    : PartialState :=
  let errorMessage := errorMessageOf error in
  {| u_messages := StateReducers.Undefined;
     u_searchQuery := StateReducers.Many [ws_searchQuery state];
     u_webResearchResult :=
       StateReducers.Many
         [ "Research for " +:+ dquote +:+ ws_searchQuery state +:+ dquote
           +:+ " - No results found due to error: " +:+ errorMessage ];
     u_sourcesGathered := StateReducers.Many [];
     u_initialSearchQueryCount := None;
     u_maxResearchLoops := None;
     u_researchLoopCount := None;
     u_reasoningModel := None;
     u_queryList := None;
     u_isSufficient := None;
     u_knowledgeGap := None;
     u_followUpQueries := StateReducers.Undefined;
     u_numberOfRanQueries := None |}.

(** [response.candidates?.[0]?.groundingMetadata?.groundingChuncks || []] *)
Definition groundingChunksOf (response : GoogleAIResponse)
    : list GroundingChunk :=
  match candidates response with
  | Some (candidate :: _) =>
      match groundingMetadata candidate with
      | Some metadata =>
          match groundingChuncks metadata with
          | Some chunks => chunks
          | None => []
          end
      | None => []
      end
  | _ => []
  end.

(** [webResearch], given the outcome of [model.generateContent]: the error
    it threw or the response it returned. *)
Definition webResearch (state : WebSearchState) (configuration : Configuration)
    (outcome : Thrown + GoogleAIResponse) : PartialState :=
  match outcome with
  | inl error => webResearchFallback state error
  | inr response =>
      let groundingChunks := groundingChunksOf response in
      let resolvedUrls := Utils.resolveUrls groundingChunks (ws_id state) in
      let citations := Utils.getCitations response resolvedUrls in
      match text response with
      | inl error => webResearchFallback state error
      | inr responseText =>
          let modifiedText :=
            Utils.insertCitationMarkers responseText citations in
          let sourcesGathered := citations ≫= segments in
          {| u_messages := StateReducers.Undefined;
             u_searchQuery := StateReducers.Many [ws_searchQuery state];
             u_webResearchResult := StateReducers.Many [modifiedText];
             u_sourcesGathered := StateReducers.Many sourcesGathered;
             u_initialSearchQueryCount := None;
             u_maxResearchLoops := None;
             u_researchLoopCount := None;
             u_reasoningModel := None;
             u_queryList := None;
             u_isSufficient := None;
             u_knowledgeGap := None;
             u_followUpQueries := StateReducers.Undefined;
             u_numberOfRanQueries := None |}
      end
  end.

(** [reflection], given the structured output of the model. *)
Definition reflection (state : OverallState) (configuration : Configuration)
    (result : ReflectionResponse) : PartialState :=
  let researchLoopCount :=
    (if researchLoopCount state =? 0 then 0 else researchLoopCount state) + 1 in
  {| u_messages := StateReducers.Undefined;
     u_searchQuery := StateReducers.Undefined;
     u_webResearchResult := StateReducers.Undefined;
     u_sourcesGathered := StateReducers.Undefined;
     u_initialSearchQueryCount := None;
     u_maxResearchLoops := None;
     u_researchLoopCount := Some researchLoopCount;
     u_reasoningModel := None;
     u_queryList := None;
     u_isSufficient := Some (r_isSufficient result);
     u_knowledgeGap := Some (r_knowledgeGap result);
     u_followUpQueries := StateReducers.Many (r_followUpQueries result);
     u_numberOfRanQueries := Some (Z.of_nat (length (searchQuery state))) |}.

Definition evaluateResearch (state : OverallState) (configuration : Configuration)
    : Route :=
  let maxResearchLoops :=
    match maxResearchLoops state with
    | Some m => m
    | None => cfg_maxResearchLoops configuration
    end in
  if isSufficient state || (researchLoopCount state >=? maxResearchLoops)
  then NodeName "finalizeAnswer"
  else
    Sends (imap (λ idx followUpQuery,
                   {| node := "webResearch";
                      args := {| ws_searchQuery := followUpQuery;
                                 ws_id := numberOfRanQueries state
                                          + Z.of_nat idx |} |})
                (followUpQueries state)).

(** The body of the loop of [finalizeAnswer] over [sourcesGathered]. *)
Definition replaceAndCollect
    (acc : string * list SourceInfo * gset string) (source : SourceInfo)
    : string * list SourceInfo * gset string :=
  let '(finalContent, uniqueSources, seenUrls) := acc in
  if JS.truthy (shortUrl source) && JS.includes finalContent (shortUrl source)
  then
    let finalContent :=
      JS.replaceAllLiteral finalContent (shortUrl source) (value source) in
    if decide (value source ∈ seenUrls)
    then (finalContent, uniqueSources, seenUrls)
    else (finalContent, uniqueSources ++ [source],
          {[ value source ]} ∪ seenUrls)
  else (finalContent, uniqueSources, seenUrls).

(** The text and the sources [finalizeAnswer] ends with, for the answer
    [content] of the model. *)
Definition finalizeSources (content : string) (gathered : list SourceInfo)
    : string * list SourceInfo :=
  (foldl replaceAndCollect (content, [], ∅) gathered).1.

(** [finalizeAnswer], given the content of the answer of the model. *)
Definition finalizeAnswer (state : OverallState) (configuration : Configuration)
    (content : string) : PartialState :=
  let '(finalContent, uniqueSources) :=
    finalizeSources content (sourcesGathered state) in
  {| u_messages := StateReducers.Many [AIMessage finalContent];
     u_searchQuery := StateReducers.Undefined;
     u_webResearchResult := StateReducers.Undefined;
     u_sourcesGathered := StateReducers.Many uniqueSources;
     u_initialSearchQueryCount := None;
     u_maxResearchLoops := None;
     u_researchLoopCount := None;
     u_reasoningModel := None;
     u_queryList := None;
     u_isSufficient := None;
     u_knowledgeGap := None;
     u_followUpQueries := StateReducers.Undefined;
     u_numberOfRanQueries := None |}.

End Nodes.

(** ** agent/graph.ts *)
Module Graph.

(** The outcomes of the external calls of a run: each is the value the
    call returned or what it threw; and the rank at which the branch of a
    work item completes among the branches of its group. *)
Record Services := {
  queryWriter : OverallState → Thrown + SearchQueryListResponse;
  searcher : WebSearchState → Thrown + GoogleAIResponse;
  reflector : OverallState → Thrown + ReflectionResponse;
  answerer : OverallState → Thrown + string;
  completionRank : WebSearchState → Z
}.

Inductive RunResult :=
  | Finished (final : OverallState)
  | Stalled (last : OverallState)
  | Aborted (error : Thrown)
  | OutOfFuel.

(** The work items of a group in the order in which their branches
    complete. *)
Definition completionOrder (services : Services) (sends : list SendObject)
    : list SendObject :=
  Utils.stableSort
    (λ a b, completionRank services (args a) - completionRank services (args b))
    sends.

(** The updates of the branches merged one after the other. *)
Definition mergeBranches (services : Services) (configuration : Configuration)
    (state : OverallState) (ordered : list SendObject) : OverallState :=
  foldl applyUpdate state
    ((λ send, Nodes.webResearch (args send) configuration
                (searcher services (args send))) <$> ordered).

(** The join of a fan-out group: every branch runs on the arguments of
    its work item, and the updates are merged in completion order into the
    state the group started from. *)
Definition joinBranches (services : Services) (configuration : Configuration)
    (state : OverallState) (sends : list SendObject) : OverallState :=
  mergeBranches services configuration state (completionOrder services sends).

(** Modelled from the spec: the executor of the compiled graph is the
    LangGraph library and is not part of the sources.  Section 4.2 of the
    specification gives its turn: a list of work items runs as one group
    against a snapshot of the state and is merged after all branches have
    returned, in completion order; an empty list schedules no node; a
    failing node aborts the run.  The edges are those [createGraph] adds: webResearch to
    reflection, reflection through [evaluateResearch] to webResearch or
    finalizeAnswer, finalizeAnswer to the end.  The result comes with the
    fan-out groups that ran, in order. *)
Fixpoint researchLoop (fuel : nat) (services : Services)
    (configuration : Configuration) (state : OverallState)
    (sends : list SendObject) : list (list SendObject) * RunResult :=
  match fuel with
  | O => ([], OutOfFuel)
  | S fuel' =>
      match sends with
      | [] => ([], Stalled state)
      | _ :: _ =>
          let joined := joinBranches services configuration state sends in
          match reflector services joined with
          | inl error => ([sends], Aborted error)
          | inr result =>
              let reflected :=
                applyUpdate joined
                  (Nodes.reflection joined configuration result) in
              match Nodes.evaluateResearch reflected configuration with
              | NodeName name =>
                  if decide (name = "finalizeAnswer") then
                    match answerer services reflected with
                    | inl error => ([sends], Aborted error)
                    | inr content =>
                        ([sends],
                         Finished
                           (applyUpdate reflected
                              (Nodes.finalizeAnswer reflected configuration
                                 content)))
                    end
                  else ([sends], Aborted (ErrorObject "unknown node"))
              | Sends items =>
                  let '(groups, result) :=
                    researchLoop fuel' services configuration reflected items in
                  (sends :: groups, result)
              end
          end
      end
  end.

(** Modelled from the spec: a run of the graph from its entry point,
    generateQuery, whose conditional edge is [continueToWebResearch]. *)
Definition runGraph (fuel : nat) (services : Services)
    (configuration : Configuration) (initialState : OverallState)
    : list (list SendObject) * RunResult :=
  match queryWriter services initialState with
  | inl error => ([], Aborted error)
  | inr result =>
      let generated :=
        applyUpdate initialState
          (Nodes.generateQuery initialState configuration result) in
      researchLoop fuel services configuration generated
        (Nodes.continueToWebResearch generated)
  end.

(** The state api/routes.ts starts a run from: the defaults of
    [GraphState] with the message of the user merged in. *)
Definition initialStateOf (input : string) : OverallState :=
  applyUpdate defaultState
    {| u_messages := StateReducers.Many [HumanMessage input];
       u_searchQuery := StateReducers.Undefined;
       u_webResearchResult := StateReducers.Undefined;
       u_sourcesGathered := StateReducers.Undefined;
       u_initialSearchQueryCount := None;
       u_maxResearchLoops := None;
       u_researchLoopCount := None;
       u_reasoningModel := None;
       u_queryList := None;
       u_isSufficient := None;
       u_knowledgeGap := None;
       u_followUpQueries := StateReducers.Undefined;
       u_numberOfRanQueries := None |}.

(** The identifiers of the work items of the groups of a run, in order. *)
Definition mintedIds (groups : list (list SendObject)) : list Z :=
  (λ send, ws_id (args send)) <$> concat groups.

End Graph.

(** ** Orders and predicates used to state the properties *)

(** The comparator lets [a] stand before [b]. *)
Definition precedes {A} (cmp : A → A → Z) (a b : A) : Prop := cmp a b ≤ 0.

(** [a] may stand before [b] after the sort: the end offset descends,
    and among equal end offsets the start offset descends. *)
Definition descendingOffsets (a b : CitationInfo) : Prop :=
  endIndex b < endIndex a
  ∨ (endIndex b = endIndex a ∧ startIndex b ≤ startIndex a).

(** Two citations of a list that agree on both offsets are the same. *)
Definition tiesAgree (l : list CitationInfo) : Prop :=
  ∀ a b, a ∈ l → b ∈ l →
    endIndex a = endIndex b → startIndex a = startIndex b → a = b.

(** [c] has the end offset [e] and the start offset [s]. *)
Definition sameOffsets (e s : Z) (c : CitationInfo) : Prop :=
  endIndex c = e ∧ startIndex c = s.

Global Instance sameOffsets_dec (e s : Z) (c : CitationInfo) :
  Decision (sameOffsets e s c).
Proof. unfold sameOffsets. apply _. Defined.

Definition nasa : SourceInfo :=
  {| label := "NASA"; shortUrl := "s1"; value := "http://nasa.gov" |}.

(** The index of the first occurrence of [url] in [urls]. *)
Definition firstIndexOf (url : string) (urls : list string) : option nat :=
  fst <$> list_find (λ x, x = url) urls.

(** A chunk that carries only a URL. *)
Definition urlChunk (u : string) : GroundingChunk :=
  {| web := Some {| uri := Some u; title := None |} |}.

(** Eleven chunks with distinct URLs, as one search response may carry. *)
Definition elevenChunks : list GroundingChunk :=
  urlChunk <$>
    [ "http://site0.example/"; "http://site1.example/"; "http://site2.example/";
      "http://site3.example/"; "http://site4.example/"; "http://site5.example/";
      "http://site6.example/"; "http://site7.example/"; "http://site8.example/";
      "http://site9.example/"; "http://site10.example/" ].

(** The sources of the second and of the eleventh chunk of batch 0. *)
Definition sourceOne : SourceInfo :=
  {| label := "site1"; shortUrl := Utils.shortId 0 1;
     value := "http://site1.example/" |}.

Definition sourceTen : SourceInfo :=
  {| label := "site10"; shortUrl := Utils.shortId 0 10;
     value := "http://site10.example/" |}.

(** [source] passes the guard of the loop of [finalizeAnswer] on the
    text [content]. *)
Definition cited (content : string) (source : SourceInfo) : bool :=
  JS.truthy (shortUrl source) && JS.includes content (shortUrl source).

(** The text [finalizeAnswer] ends with: in the order of [gathered], the
    short identifier of every source that passes the guard is replaced. *)
Fixpoint finalText (content : string) (gathered : list SourceInfo) : string :=
  match gathered with
  | [] => content
  | source :: rest =>
      finalText
        (if cited content source
         then JS.replaceAllLiteral content (shortUrl source) (value source)
         else content)
        rest
  end.

(** The sources that pass the guard when their turn comes, in order. *)
Fixpoint citedSources (content : string) (gathered : list SourceInfo)
    : list SourceInfo :=
  match gathered with
  | [] => []
  | source :: rest =>
      if cited content source
      then source ::
           citedSources
             (JS.replaceAllLiteral content (shortUrl source) (value source)) rest
      else citedSources content rest
  end.

(** [kept] holds, in the order of [sources], the first source of every
    [value] that occurs in [sources], and nothing else. *)
Definition firstOfEachValue (kept sources : list SourceInfo) : Prop :=
  NoDup (value <$> kept)
  ∧ kept `sublist_of` sources
  ∧ (∀ v, v ∈ value <$> kept ↔ v ∈ value <$> sources)
  ∧ (∀ s, s ∈ kept →
       ∃ before after, sources = before ++ s :: after
                       ∧ value s ∉ value <$> before).

(** No dollar sign occurs in [s]. *)
Fixpoint dollarFree (s : string) : bool :=
  match s with
  | EmptyString => true
  | String c s' => negb (Ascii.eqb c "$"%char) && dollarFree s'
  end.

(** Three gathered sources, two of them with the same original URL. *)
Definition gatheredThree : list SourceInfo :=
  [ {| label := "a"; shortUrl := "s1"; value := "http://a" |};
    {| label := "a"; shortUrl := "s2"; value := "http://a" |};
    {| label := "b"; shortUrl := "s3"; value := "http://b" |} ].

(** The grounding metadata [getCitations] reads: that of the first
    candidate. *)
Definition metadataOf (response : GoogleAIResponse) : option GroundingMetadata :=
  match candidates response with
  | Some (candidate :: _) => groundingMetadata candidate
  | _ => None
  end.

(** Its support entries; none when a level is absent. *)
Definition supportsOf (response : GoogleAIResponse) : list GroundingSupport :=
  match metadataOf response with
  | Some metadata =>
      match groundingSupports metadata with Some l => l | None => [] end
  | None => []
  end.

(** Its chunks. *)
Definition chunksOf (response : GoogleAIResponse)
    : option (list GroundingChunk) :=
  match metadataOf response with
  | Some metadata => groundingChuncks metadata
  | None => None
  end.

(** The short URL the map object gives for the URL [u]: the non-empty
    identifier it holds for [u], or, when it holds none and [u] names a
    member of Object.prototype, that inherited member (as the string it
    converts to). *)
Definition shortUrlFor (resolvedUrlsMap : gmap string string) (u r : string)
    : Prop :=
  (resolvedUrlsMap !! u = Some r ∧ r ≠ "")
  ∨ (resolvedUrlsMap !! u = None ∧ JS.inherited u = true
     ∧ r = JS.memberText u).

(** The chunk at index [ind] resolves to [source] through the map: the
    chunk exists, its URL is non-empty, and the map object gives a short
    URL for it. *)
Definition resolvesTo (chunks : option (list GroundingChunk))
    (resolvedUrlsMap : gmap string string) (ind : Z) (source : SourceInfo)
    : Prop :=
  ∃ chunk w u r,
    Utils.chunkAt chunks ind = Some chunk
    ∧ web chunk = Some w ∧ uri w = Some u ∧ u ≠ ""
    ∧ shortUrlFor resolvedUrlsMap u r
    ∧ source = {| label := Utils.labelOf (title w); shortUrl := r; value := u |}.

(** The source the index [ind] contributes, if any. *)
Definition sourceOf (chunks : option (list GroundingChunk))
    (resolvedUrlsMap : gmap string string) (ind : Z) : option SourceInfo :=
  match Utils.pushSource chunks resolvedUrlsMap [] ind with
  | source :: _ => Some source
  | [] => None
  end.


(** A response with one chunk and one support entry that has an end
    offset and no start offset. *)
Definition responseNoStart : GoogleAIResponse :=
  {| candidates :=
       Some [ {| groundingMetadata :=
                   Some {| groundingChuncks :=
                             Some [ {| web := Some {| uri := Some "http://a.example/";
                                                      title := Some "example.com" |} |} ];
                           groundingSupports :=
                             Some [ {| segment :=
                                         Some {| seg_startIndex := None;
                                                 seg_endIndex := Some 5 |};
                                       groundingChunkIndices := Some [0] |} ] |} |} ];
     text := inr "Hello world." |}.

(** A response whose one chunk has the URL "constructor", cited by one
    support entry. *)
Definition constructorResponse : GoogleAIResponse :=
  {| candidates :=
       Some [ {| groundingMetadata :=
                   Some {| groundingChuncks :=
                             Some [ {| web := Some {| uri := Some "constructor";
                                                      title := Some "page.html" |} |} ];
                           groundingSupports :=
                             Some [ {| segment :=
                                         Some {| seg_startIndex := Some 0;
                                                 seg_endIndex := Some 5 |};
                                       groundingChunkIndices := Some [0] |} ] |} |} ];
     text := inr "Hello world." |}.

(** [state.maxResearchLoops ?? configuration.maxResearchLoops] *)
Definition effectiveMaxLoops (state : OverallState)
    (configuration : Configuration) : Z :=
  match maxResearchLoops state with
  | Some m => m
  | None => cfg_maxResearchLoops configuration
  end.

(** The identifiers [from], [from + 1], ... of [n] work items. *)
Definition idsFrom (from : Z) (n : nat) : list Z := seqZ from (Z.of_nat n).

(** The identifiers and the queries of a fan-out group. *)
Definition idsOf (sends : list SendObject) : list Z :=
  (λ send, ws_id (args send)) <$> sends.

Definition queriesOf (sends : list SendObject) : list string :=
  (λ send, ws_searchQuery (args send)) <$> sends.


(** A run for the examples: two generated queries, a search service
    that is down, branches that complete in the reverse order of their
    identifiers, a reflection that is never satisfied and asks one more
    query each time. *)
Definition demoConfiguration : Configuration :=
  {| queryGeneratorModel := "gemini-2.0-flash";
     reflectionModel := "gemini-2.5-flash-preview-04-17";
     answerModel := "gemini-2.5-pro-preview-05-06";
     numberOfInitialQueries := 3;
     cfg_maxResearchLoops := 2 |}.

Definition demoServices : Graph.Services :=
  {| Graph.queryWriter := λ _,
       inr {| sq_query := ["first query"; "second query"];
              sq_rationale := "why" |};
     Graph.searcher := λ _, inl (ErrorObject "service unavailable");
     Graph.reflector := λ _,
       inr {| r_isSufficient := false; r_knowledgeGap := "gap";
              r_followUpQueries := ["follow-up"] |};
     Graph.answerer := λ _, inr "The answer.";
     Graph.completionRank := λ state, - ws_id state |}.


(** The state after reflection on the joined state. *)
Definition reflectedState (configuration : Configuration)
    (joined : OverallState) (result : ReflectionResponse) : OverallState :=
  applyUpdate joined (Nodes.reflection joined configuration result).

Definition demoInitialState : OverallState := Graph.initialStateOf "question".

(** The example run and the state it ends with. *)
Definition demoRun : list (list SendObject) * Graph.RunResult :=
  Graph.runGraph 5 demoServices demoConfiguration demoInitialState.

Definition demoFinal : OverallState :=
  match demoRun.2 with
  | Graph.Finished final => final
  | _ => demoInitialState
  end.

(** Chunks with a repeated URL and a chunk without a URL. *)
Definition repeatedChunks : list GroundingChunk :=
  [ urlChunk "http://a.example/"; urlChunk "http://b.example/";
    {| web := None |}; urlChunk "http://a.example/";
    urlChunk "http://b.example/" ].

(** ** More of agent/utils.ts: getResearchTopic *)

(** A code unit that [trim] removes: tab, line feed, vertical tab, form
    feed, carriage return, space and no-break space, the white space and
    line terminators among the code units of a [string]. *)
Definition isWhiteSpace (c : ascii) : bool :=
  let n := N_of_ascii c in
  ((9 <=? n) && (n <=? 13) || (n =? 32) || (n =? 160))%N.

Fixpoint trimStart (s : string) : string :=
  match s with
  | EmptyString => EmptyString
  | String c s' => if isWhiteSpace c then trimStart s' else s
  end.

Fixpoint trimEnd (s : string) : string :=
  match s with
  | EmptyString => EmptyString
  | String c s' =>
      match trimEnd s' with
      | EmptyString => if isWhiteSpace c then EmptyString else String c EmptyString
      | String d t => String c (String d t)
      end
  end.

(** [s.trim()] *)
Definition trim (s : string) : string := trimEnd (trimStart s).

(** What [getResearchTopic] reads of a message: whether it is a human
    message, an AI message or another one, and its content. *)
Inductive MessageType :=
  | HumanType
  | AIType
  | OtherType.

Record BaseMessage := {
  msg_type : MessageType;
  msg_content : string
}.

Definition baseMessage (message : Message) : BaseMessage :=
  match message with
  | HumanMessage content => {| msg_type := HumanType; msg_content := content |}
  | AIMessage content => {| msg_type := AIType; msg_content := content |}
  end.

(** The body of the loop of [getResearchTopic]. *)
Definition topicStep (researchTopic : string) (message : BaseMessage) : string :=
  match msg_type message with
  | HumanType =>
      researchTopic +:+ "User: " +:+ msg_content message +:+ Utils.newline
  | AIType =>
      researchTopic +:+ "Assistant: " +:+ msg_content message +:+ Utils.newline
  | OtherType => researchTopic
  end.

Definition getResearchTopic (messages : list BaseMessage) : string :=
  match messages with
  | [] => ""
  | [message] => msg_content message
  | _ :: _ :: _ => trim (foldl topicStep "" messages)
  end.

(** [s] begins, or ends, with a code unit that [trim] removes. *)
Definition startsWithWhiteSpace (s : string) : bool :=
  match s with
  | EmptyString => false
  | String c _ => isWhiteSpace c
  end.

Fixpoint endsWithWhiteSpace (s : string) : bool :=
  match s with
  | EmptyString => false
  | String c EmptyString => isWhiteSpace c
  | String _ s' => endsWithWhiteSpace s'
  end.

(** ** Statements about insertCitationMarkers *)

(** The first [n] characters of [s]. *)
Fixpoint takeStr (n : nat) (s : string) : string :=
  match n, s with
  | O, _ => EmptyString
  | S n', String c s' => String c (takeStr n' s')
  | S _, EmptyString => EmptyString
  end.

(** The text with a marker group after the first [endIndex] code units of
    the original text, for citations given from the largest end offset
    down. *)
Fixpoint markedText (text : string) (sortedCitations : list CitationInfo)
    : string :=
  match sortedCitations with
  | [] => text
  | citationInfo :: rest =>
      let e := Z.to_nat (endIndex citationInfo) in
      markedText (takeStr e text) rest +:+ Utils.markerOf citationInfo
        +:+ JS.dropStr e text
  end.

(** Every end offset lies within the text. *)
Definition offsetsWithin (text : string) (l : list CitationInfo) : Prop :=
  ∀ c, c ∈ l → 0 ≤ endIndex c ≤ Z.of_nat (String.length text).

(** ** Statements about getCitations, resolveUrls and webResearch *)

(** No hyphen occurs in [s]. *)
Fixpoint dashFree (s : string) : bool :=
  match s with
  | EmptyString => true
  | String c s' => negb (Ascii.eqb c "-"%char) && dashFree s'
  end.

(** The URLs [webResearch] resolves: those of the chunks of the response. *)
Definition responseUrls (response : GoogleAIResponse) : list string :=
  Utils.chunkUrl <$> Nodes.groundingChunksOf response.

(** ** Statements about the reducers *)

(** The entries one update adds to an accumulated field. *)
Definition contribution {T} (truthyT : T → bool)
    (update : StateReducers.Update T) : list T :=
  match update with
  | StateReducers.Undefined => []
  | StateReducers.Single x => if truthyT x then [x] else []
  | StateReducers.Many xs => xs
  end.

(** [arrayAccumulator] applied to a sequence of updates, one after the
    other. *)
Definition accumulate {T} (truthyT : T → bool) (current : list T)
    (updates : list (StateReducers.Update T)) : list T :=
  foldl (λ cur update,
           StateReducers.arrayAccumulator truthyT (Some cur) update)
        current updates.

(** [simpleValue] applied to a sequence of updates. *)
Definition overwrite {T} (current : T) (updates : list (option T)) : T :=
  foldl StateReducers.simpleValue current updates.

(** ** config/index.ts *)

(** [process.env] is a finite map from the names of the variables that
    are set to their values, which are strings. *)
Module Config.

(** [config.configurable]: every field is an optional string. *)
Record Configurable := {
  thread_id : option string;
  query_generator_model : option string;
  reflection_model : option string;
  answer_model : option string;
  number_of_initial_queries : option string;
  max_research_loops : option string
}.

Record ConfigType := {
  configurable : option Configurable
}.

(** The object [{}]. *)
Definition noConfigurable : Configurable := {|
  thread_id := None;
  query_generator_model := None;
  reflection_model := None;
  answer_model := None;
  number_of_initial_queries := None;
  max_research_loops := None
|}.

(** [config?.configurable || {}], for [config] defaulting to [{}]. *)
Definition configurableOf (config : option ConfigType) : Configurable :=
  match config with
  | Some config => default noConfigurable (configurable config)
  | None => noConfigurable
  end.

(** [a || b] where [a] is a string or [undefined]. *)
Definition orDefault (a : option string) (b : string) : string :=
  match a with
  | Some s => JS.orElse s b
  | None => b
  end.

(** The value of a code unit as a digit: 0-9, a-z, A-Z. *)
Definition digitOf (c : ascii) : option Z :=
  let n := Z.of_N (N_of_ascii c) in
  if (48 <=? n) && (n <=? 57) then Some (n - 48)
  else if (97 <=? n) && (n <=? 122) then Some (n - 87)
  else if (65 <=? n) && (n <=? 90) then Some (n - 55)
  else None.

(** The value of the longest prefix of [s] made of digits of the radix,
    read on from [acc]; [None] while no digit has been read. *)
Fixpoint digitsValue (radix : Z) (acc : option Z) (s : string) : option Z :=
  match s with
  | EmptyString => acc
  | String c s' =>
      match digitOf c with
      | Some d =>
          if d <? radix
          then digitsValue radix (Some (default 0 acc * radix + d)) s'
          else acc
      | None => acc
      end
  end.

(** The numbers [parseInt] returns: NaN, a double with an integer value,
    or an infinity.  The sign of a zero is left out: no code here tells -0
    from 0. *)
Inductive Number :=
  | NaN
  | Finite (n : Z)
  | Infinity (negative : bool).

(** The double nearest to the integer [n], ties to the even significand:
    exact below 2^53 in absolute value, 53 significant bits from there on,
    an infinity from 2^1024 on. *)
Definition toDouble (n : Z) : Number :=
  let m := Z.abs n in
  if m <? 2 ^ 53 then Finite n
  else
    let k := Z.log2 m - 52 in
    let q := Z.shiftr m k in
    let r := Z.land m (Z.ones k) in
    let half := 2 ^ (k - 1) in
    let q' := if (half <? r) || ((r =? half) && Z.odd q) then q + 1 else q in
    let v := Z.shiftl q' k in
    if 2 ^ 1024 <=? v then Infinity (n <? 0) else Finite (Z.sgn n * v).

(** [parseInt(input)] without a radix: the double nearest to the integer
    the digits denote, as Node computes it. *)
Definition parseInt (input : string) : Number :=
  let S := trimStart input in
  let sign := if String.prefix "-" S then -1 else 1 in
  let S :=
    if String.prefix "-" S || String.prefix "+" S then JS.dropStr 1 S else S in
  let hex := String.prefix "0x" S || String.prefix "0X" S in
  let R := if hex then 16 else 10 in
  let S := if hex then JS.dropStr 2 S else S in
  match digitsValue R None S with
  | Some mathInt => toDouble (sign * mathInt)
  | None => NaN
  end.

(** The fields of the class. *)
Record Configuration := {
  queryGeneratorModel : string;
  reflectionModel : string;
  answerModel : string;
  numberOfInitialQueries : Number;
  maxResearchLoops : Number;
  port : Number;
  nodeEnv : string;
  googleApiKey : string;
  langgraphApiUrl : string;
  logLevel : string;
  corsOrigin : string
}.

(** [new Configuration(config)] under the environment [env]: the object,
    or the error the constructor throws. *)
Definition constructor (env : gmap string string) (config : option ConfigType)
    : Thrown + Configuration :=
  let configurable := configurableOf config in
  let googleApiKey := orDefault (env !! "GOOGLE_API_KEY") "" in
  if negb (JS.truthy googleApiKey)
  then inl (ErrorObject "GOOGLE_API_KEY is required in environment variables")
  else
    inr {|
      queryGeneratorModel :=
        orDefault (env !! "QUERY_GENERATOR_MODEL")
          (orDefault (query_generator_model configurable) "gemini-2.0-flash");
      reflectionModel :=
        orDefault (env !! "REFLECTION_MODEL")
          (orDefault (reflection_model configurable)
             "gemini-2.5-flash-preview-04-17");
      answerModel :=
        orDefault (env !! "ANSWER_MODEL")
          (orDefault (answer_model configurable)
             "gemini-2.5-pro-preview-05-06");
      numberOfInitialQueries :=
        parseInt
          (orDefault (env !! "NUMBER_OF_INITIAL_QUERIES")
             (orDefault (number_of_initial_queries configurable) "3"));
      maxResearchLoops :=
        parseInt
          (orDefault (env !! "MAX_RESEARCH_LOOPS")
             (orDefault (max_research_loops configurable) "2"));
      port := parseInt (orDefault (env !! "PORT") "8000");
      nodeEnv := orDefault (env !! "NODE_ENV") "development";
      googleApiKey := googleApiKey;
      langgraphApiUrl :=
        orDefault (env !! "LANGGRAPH_API_URL") "http://localhost:8123";
      logLevel := orDefault (env !! "LOG_LEVEL") "info";
      corsOrigin := orDefault (env !! "CORS_ORIGIN") "http://localhost:3000"
    |}.

Definition fromRunnableConfig (env : gmap string string) (config : ConfigType)
    : Thrown + Configuration :=
  constructor env (Some config).

End Config.

(** ** api/routes.ts *)
Module Routes.

(** The body of the response of GET /agent/config. *)
Record AgentConfig := {
  models_queryGenerator : string;
  models_reflection : string;
  models_answer : string;
  limits_numberOfInitialQueries : Config.Number;
  limits_maxResearchLoops : Config.Number
}.

Definition agentConfig (env : gmap string string) : AgentConfig := {|
  models_queryGenerator :=
    Config.orDefault (env !! "QUERY_GENERATOR_MODEL") "gemini-2.0-flash";
  models_reflection :=
    Config.orDefault (env !! "REFLECTION_MODEL")
      "gemini-2.5-flash-preview-04-17";
  models_answer :=
    Config.orDefault (env !! "ANSWER_MODEL") "gemini-2.5-pro-preview-05-06";
  limits_numberOfInitialQueries :=
    Config.parseInt (Config.orDefault (env !! "NUMBER_OF_INITIAL_QUERIES") "3");
  limits_maxResearchLoops :=
    Config.parseInt (Config.orDefault (env !! "MAX_RESEARCH_LOOPS") "2")
|}.






End Routes.

(** ** Statements about the configuration *)

(** [c] is one of the digits 0 to 9. *)
Definition isDecimalDigit (c : ascii) : bool :=
  match Config.digitOf c with
  | Some d => d <? 10
  | None => false
  end.

(** Every code unit of [s] is a decimal digit. *)
Fixpoint decimalDigits (s : string) : bool :=
  match s with
  | EmptyString => true
  | String c s' => isDecimalDigit c && decimalDigits s'
  end.

(** An environment with the API key and the research-loop limit 5. *)
Definition demoEnv : gmap string string :=
  <["MAX_RESEARCH_LOOPS" := "5"]> (<["GOOGLE_API_KEY" := "key"]> ∅).

(** A request configuration that asks for 7 research loops and another
    query model. *)
Definition demoConfig : Config.ConfigType := {|
  Config.configurable :=
    Some {| Config.thread_id := None;
            Config.query_generator_model := Some "my-model";
            Config.reflection_model := None;
            Config.answer_model := None;
            Config.number_of_initial_queries := None;
            Config.max_research_loops := Some "7" |}
|}.


(** ** Statements about the nodes along the edges of the graph *)

(** The state after generateQuery. *)
Definition generatedState (st : OverallState) (configuration : Configuration)
    (result : SearchQueryListResponse) : OverallState :=
  applyUpdate st (Nodes.generateQuery st configuration result).

(** The configuration with another research-loop limit. *)
Definition withMaxResearchLoops (configuration : Configuration) (limit : Z)
    : Configuration :=
  {| queryGeneratorModel := queryGeneratorModel configuration;
     reflectionModel := reflectionModel configuration;
     answerModel := answerModel configuration;
     numberOfInitialQueries := numberOfInitialQueries configuration;
     cfg_maxResearchLoops := limit |}.

(** A state after the second fan-out of a run with the limit 3, and a
    reflection on it that asks for one more query. *)
Definition joinedDemo : OverallState := {|
  messages := [HumanMessage "question"];
  searchQuery := ["first query"; "earlier follow-up"];
  webResearchResult := ["result"; "another result"];
  sourcesGathered := gatheredThree;
  initialSearchQueryCount := 0;
  maxResearchLoops := Some 3;
  researchLoopCount := 1;
  reasoningModel := "gemini-2.0-flash";
  queryList := [];
  isSufficient := false;
  knowledgeGap := "gap";
  followUpQueries := ["earlier follow-up"];
  numberOfRanQueries := 1
|}.

Definition demoReflection : ReflectionResponse :=
  {| r_isSufficient := false;
     r_knowledgeGap := "gap";
     r_followUpQueries := ["new follow-up"] |}.

(** Services whose first reflection is not satisfied and asks no
    follow-up query. *)
Definition silentServices : Graph.Services :=
  {| Graph.queryWriter := λ _,
       inr {| sq_query := ["first query"]; sq_rationale := "why" |};
     Graph.searcher := λ _, inl (ErrorObject "service unavailable");
     Graph.reflector := λ _,
       inr {| r_isSufficient := false; r_knowledgeGap := "gap";
              r_followUpQueries := [] |};
     Graph.answerer := λ _, inr "The answer.";
     Graph.completionRank := λ state, - ws_id state |}.

(** * Properties *)

(** ** insertCitationMarkers *)
Section stable_sort.
Context {A : Type} (cmp : A → A → Z).

Hypothesis cmp_total : ∀ a b, 0 < cmp a b → cmp b a ≤ 0.
Hypothesis cmp_trans : ∀ a b c, cmp a b ≤ 0 → cmp b c ≤ 0 → cmp a c ≤ 0.

Lemma sortInsert_perm (x : A) (l : list A) :
  Utils.sortInsert cmp x l ≡ₚ x :: l.
Proof.
  induction l as [|y l IH]; simpl; [done|].
  destruct (cmp x y <=? 0); [done|].
  rewrite IH. apply Permutation_swap.
Qed.

Lemma stableSort_perm (l : list A) : Utils.stableSort cmp l ≡ₚ l.
Proof.
  induction l as [|x l IH]; simpl; [done|].
  by rewrite sortInsert_perm, IH.
Qed.

Lemma sortInsert_sorted (x : A) (l : list A) :
  StronglySorted (precedes cmp) l →
  StronglySorted (precedes cmp) (Utils.sortInsert cmp x l).
Proof.
  induction 1 as [|y l Hl IH Hy]; simpl.
  - repeat constructor.
  - destruct (Z.leb_spec (cmp x y) 0) as [Hle|Hgt].
    + constructor; [by constructor|].
      constructor; [exact Hle|].
      eapply Forall_impl; [exact Hy|]. intros z Hz. by eapply cmp_trans.
    + constructor; [exact IH|].
      rewrite sortInsert_perm. constructor; [|exact Hy].
      by apply cmp_total.
Qed.

Lemma stableSort_sorted (l : list A) :
  StronglySorted (precedes cmp) (Utils.stableSort cmp l).
Proof.
  induction l as [|x l IH]; simpl; [constructor|].
  by apply sortInsert_sorted.
Qed.

End stable_sort.

(** The sort is stable: elements that the comparator ties keep the order
    in which they stand in the input. *)
Lemma sortInsert_filter {A} (cmp : A → A → Z) (P : A → Prop)
    `{!∀ x, Decision (P x)} (x : A) (l : list A) :
  (∀ a b, P a → P b → cmp a b ≤ 0) →
  filter P (Utils.sortInsert cmp x l) = filter P (x :: l).
Proof.
  intros Hties. induction l as [|y l IH]; [done|]. simpl.
  destruct (Z.leb_spec (cmp x y) 0) as [Hle|Hgt]; [done|].
  rewrite filter_cons, IH, !filter_cons.
  destruct (decide (P x)) as [Hx|Hx]; [|done].
  destruct (decide (P y)) as [Hy|Hy]; [|done].
  specialize (Hties x y Hx Hy). lia.
Qed.

Lemma stableSort_filter {A} (cmp : A → A → Z) (P : A → Prop)
    `{!∀ x, Decision (P x)} (l : list A) :
  (∀ a b, P a → P b → cmp a b ≤ 0) →
  filter P (Utils.stableSort cmp l) = filter P l.
Proof.
  intros Hties. induction l as [|x l IH]; [done|]. simpl.
  rewrite sortInsert_filter by done. by rewrite !filter_cons, IH.
Qed.

Lemma stableSort_citations_stable (e s : Z) (l : list CitationInfo) :
  filter (sameOffsets e s) (Utils.stableSort Utils.compareCitations l)
  = filter (sameOffsets e s) l.
Proof.
  apply stableSort_filter. intros a b [Ha1 Ha2] [Hb1 Hb2].
  unfold Utils.compareCitations.
  destruct (Z.eqb_spec (endIndex b) (endIndex a)); simpl; lia.
Qed.

Lemma compareCitations_descending (a b : CitationInfo) :
  Utils.compareCitations a b ≤ 0 ↔ descendingOffsets a b.
Proof.
  unfold Utils.compareCitations, descendingOffsets.
  destruct (Z.eqb_spec (endIndex b) (endIndex a)); simpl; lia.
Qed.

Lemma compareCitations_total (a b : CitationInfo) :
  0 < Utils.compareCitations a b → Utils.compareCitations b a ≤ 0.
Proof.
  unfold Utils.compareCitations.
  destruct (Z.eqb_spec (endIndex b) (endIndex a)),
    (Z.eqb_spec (endIndex a) (endIndex b)); simpl; lia.
Qed.

Lemma compareCitations_trans (a b c : CitationInfo) :
  Utils.compareCitations a b ≤ 0 → Utils.compareCitations b c ≤ 0 →
  Utils.compareCitations a c ≤ 0.
Proof. rewrite !compareCitations_descending. unfold descendingOffsets. lia. Qed.

Lemma sortedCitations_descending (l : list CitationInfo) :
  StronglySorted descendingOffsets (Utils.stableSort Utils.compareCitations l).
Proof.
  pose proof (stableSort_sorted Utils.compareCitations
                compareCitations_total compareCitations_trans l) as Hs.
  induction Hs as [|x t _ IH Hx]; constructor; [exact IH|].
  eapply Forall_impl; [exact Hx|].
  intros y Hy. by apply compareCitations_descending.
Qed.

Lemma stableSort_citations_unique (l l' : list CitationInfo) :
  l ≡ₚ l' → tiesAgree l →
  Utils.stableSort Utils.compareCitations l'
  = Utils.stableSort Utils.compareCitations l.
Proof.
  intros Hperm Hties.
  apply (StronglySorted_unique_strong descendingOffsets);
    [|apply sortedCitations_descending..|].
  - intros a b Ha Hb Hab Hba.
    rewrite stableSort_perm in Ha. rewrite stableSort_perm in Hb.
    rewrite <- Hperm in Ha.
    unfold descendingOffsets in Hab, Hba.
    apply Hties; [done|done|lia|lia].
  - by rewrite !stableSort_perm.
Qed.

(** C7, as amended: on the text "The sky is blue." and the one citation
    with startIndex 4, endIndex 12 and the source NASA/s1,
    insertCitationMarkers splices the marker after the twelfth code unit
    and returns "The sky is b [NASA](s1)lue."; the string
    "The sky [NASA](s1) is blue." is what it returns for endIndex 7. *)
Theorem insertCitationMarkers_sky :
  Utils.insertCitationMarkers "The sky is blue."
    [ {| startIndex := 4; endIndex := 12; segments := [nasa] |} ]
  = "The sky is b [NASA](s1)lue."
  ∧ Utils.insertCitationMarkers "The sky is blue."
      [ {| startIndex := 4; endIndex := 7; segments := [nasa] |} ]
    = "The sky [NASA](s1) is blue.".
Proof. split; reflexivity. Qed.

(** C7, as stated, fails: with endIndex 12 the result is not
    "The sky [NASA](s1) is blue.". *)
Lemma insertCitationMarkers_sky_not_claimed :
  Utils.insertCitationMarkers "The sky is blue."
    [ {| startIndex := 4; endIndex := 12; segments := [nasa] |} ]
  ≠ "The sky [NASA](s1) is blue.".
Proof. vm_compute. discriminate. Qed.

(** C1, as amended: insertCitationMarkers sorts a copy of the segments
    into descending end offset, ties by descending start offset, and
    splices the marker groups in that order; the sort is stable, so the
    segments that agree on both offsets stand in the sorted copy in the
    order in which they stand in the input.  When the segments that agree
    on both offsets are equal, every permutation of the input list is
    sorted to the same list and gives the same text. *)
Theorem insertCitationMarkers_permutation
    (text : string) (l l' : list CitationInfo) :
  l ≡ₚ l' →
  Utils.stableSort Utils.compareCitations l ≡ₚ l
  ∧ StronglySorted descendingOffsets
      (Utils.stableSort Utils.compareCitations l)
  ∧ (∀ e s,
       filter (sameOffsets e s) (Utils.stableSort Utils.compareCitations l)
       = filter (sameOffsets e s) l)
  ∧ Utils.insertCitationMarkers text l
    = foldl Utils.spliceMarker text
        (Utils.stableSort Utils.compareCitations l)
  ∧ (tiesAgree l →
     Utils.stableSort Utils.compareCitations l'
     = Utils.stableSort Utils.compareCitations l
     ∧ Utils.insertCitationMarkers text l'
       = Utils.insertCitationMarkers text l).
Proof.
  intros Hperm.
  split; [apply stableSort_perm|].
  split; [apply sortedCitations_descending|].
  split; [intros e s; apply stableSort_citations_stable|].
  split; [reflexivity|].
  intros Hties. split; [by apply stableSort_citations_unique|].
  unfold Utils.insertCitationMarkers.
  by rewrite (stableSort_citations_unique l l').
Qed.

Lemma insertCitationMarkers_permutation_witness :
  let a := {| startIndex := 0; endIndex := 3; segments := [nasa] |} in
  let b := {| startIndex := 4; endIndex := 7; segments := [nasa] |} in
  Utils.insertCitationMarkers "The sky is blue." [b; a]
  = Utils.insertCitationMarkers "The sky is blue." [a; b].
Proof.
  intros a b.
  refine (proj2 (proj2 (proj2 (proj2 (proj2
    (insertCitationMarkers_permutation "The sky is blue." [a; b] [b; a] _))))
    _)).
  - apply Permutation_swap.
  - intros x y Hx Hy He Hs.
    repeat (apply elem_of_cons in Hx as [->|Hx]);
      repeat (apply elem_of_cons in Hy as [->|Hy]);
      try (by apply elem_of_nil in Hx); try (by apply elem_of_nil in Hy);
      try reflexivity; simpl in He; lia.
Defined.

(** C1, as stated, fails: two segments with the same offsets and different
    sources are left in their input order, and the text differs. *)
Lemma insertCitationMarkers_order_matters :
  let a := {| startIndex := 0; endIndex := 1;
              segments := [ {| label := "A"; shortUrl := "a"; value := "x" |} ] |} in
  let b := {| startIndex := 0; endIndex := 1;
              segments := [ {| label := "B"; shortUrl := "b"; value := "y" |} ] |} in
  [a; b] ≡ₚ [b; a]
  ∧ Utils.insertCitationMarkers "ab" [a; b] = "a [B](b) [A](a)b"
  ∧ Utils.insertCitationMarkers "ab" [b; a] = "a [A](a) [B](b)b"
  ∧ Utils.insertCitationMarkers "ab" [a; b]
    ≠ Utils.insertCitationMarkers "ab" [b; a].
Proof.
  intros a b. split; [apply Permutation_swap|].
  split; [reflexivity|]. split; [reflexivity|].
  vm_compute. discriminate.
Qed.

(** ** resolveUrls *)

Lemma truthy_nonempty (s : string) : JS.truthy s = true ↔ s ≠ "".
Proof. destruct s; simpl; split; congruence. Qed.

Lemma shortId_truthy (id : Z) (idx : nat) : JS.truthy (Utils.shortId id idx) = true.
Proof. reflexivity. Qed.

Lemma shortId_inj (id : Z) (i j : nat) :
  Utils.shortId id i = Utils.shortId id j → i = j.
Proof.
  unfold Utils.shortId. intros H.
  apply (inj (String.app Utils.prefix)) in H.
  apply (inj (String.app (pretty id))) in H.
  apply (inj (String.app "-")) in H.
  by apply (inj pretty) in H.
Qed.

Lemma firstIndexOf_cons (u url : string) (urls : list string) :
  firstIndexOf u (url :: urls)
  = if decide (url = u) then Some 0%nat else S <$> firstIndexOf u urls.
Proof.
  unfold firstIndexOf. simpl. destruct (decide (url = u)); [done|].
  destruct (list_find _ urls) as [[i x]|]; done.
Qed.

Lemma firstIndexOf_Some (u : string) (urls : list string) (i : nat) :
  firstIndexOf u urls = Some i
  ↔ urls !! i = Some u ∧ ∀ j, (j < i)%nat → urls !! j ≠ Some u.
Proof.
  unfold firstIndexOf. split.
  - intros H. apply fmap_Some in H as [[i' x] [H ->]].
    apply list_find_Some in H as (Hi & -> & Hlt). simpl. split; [done|].
    intros j Hj Hju. by apply (Hlt j u).
  - intros [Hi Hlt]. apply fmap_Some. exists (i, u). split; [|done].
    apply list_find_Some. split; [done|]. split; [done|].
    intros j y Hj Hji ->. by apply (Hlt j).
Qed.

Lemma firstIndexOf_elem (u : string) (urls : list string) :
  u ∈ urls → is_Some (firstIndexOf u urls).
Proof.
  intros Hu. unfold firstIndexOf.
  destruct (list_find_elem_of (λ x, x = u) urls u Hu eq_refl) as [[i x] ->].
  by eexists.
Qed.

(** Every value of the map is truthy, so the guard of the loop tests
    whether the URL has a mapping or names an inherited member. *)
Lemma resolveFrom_lookup (id : Z) (urls : list string) :
  ∀ (idx : nat) (m : gmap string string) (u : string),
    (∀ k s, m !! k = Some s → JS.truthy s = true) →
    Utils.resolveFrom id idx urls m !! u
    = match m !! u with
      | Some s => Some s
      | None =>
          if JS.truthy u && negb (JS.inherited u)
          then (λ i, Utils.shortId id (idx + i)) <$> firstIndexOf u urls
          else None
      end.
Proof.
  induction urls as [|url rest IH]; intros idx m u Hm; simpl.
  { destruct (m !! u); [done|]. by destruct (JS.truthy u && _). }
  rewrite IH.
  2:{ intros k s. destruct (JS.truthy url && _); [|by apply Hm].
      rewrite lookup_insert. case_decide; [|by apply Hm].
      intros [= <-]. apply shortId_truthy. }
  rewrite firstIndexOf_cons. unfold JS.get.
  assert (Hrest : ∀ v : option string,
            url ≠ u →
            match v with
            | Some s => Some s
            | None =>
                if JS.truthy u && negb (JS.inherited u)
                then (λ i, Utils.shortId id (S idx + i)) <$> firstIndexOf u rest
                else None
            end
            = match v with
              | Some s => Some s
              | None =>
                  if JS.truthy u && negb (JS.inherited u)
                  then (λ i, Utils.shortId id (idx + i))
                         <$> (if decide (url = u) then Some 0%nat
                              else S <$> firstIndexOf u rest)
                  else None
              end).
  { intros [s|] Hne; [done|]. rewrite decide_False by done.
    destruct (JS.truthy u && _); [|done].
    destruct (firstIndexOf u rest); simpl; [|done]. do 2 f_equal. lia. }
  destruct (m !! url) as [s|] eqn:Hurl; simpl.
  - rewrite (Hm _ _ Hurl), andb_false_r.
    destruct (decide (url = u)) as [->|Hne]; [by rewrite Hurl|].
    exact (Hrest _ Hne).
  - destruct (JS.inherited url) eqn:Hinh; simpl.
    + rewrite andb_false_r.
      destruct (decide (url = u)) as [->|Hne].
      * by rewrite Hurl, Hinh, andb_false_r.
      * exact (Hrest _ Hne).
    + rewrite andb_true_r. destruct (JS.truthy url) eqn:Ht.
      * rewrite lookup_insert. destruct (decide (url = u)) as [->|Hne].
        -- rewrite Hurl, Ht, Hinh. simpl. do 2 f_equal. lia.
        -- exact (Hrest _ Hne).
      * destruct (decide (url = u)) as [->|Hne]; [by rewrite Hurl, Ht|].
        exact (Hrest _ Hne).
Qed.

Lemma resolveUrls_lookup (chunks : list GroundingChunk) (id : Z) (u : string) :
  Utils.resolveUrls chunks id !! u
  = if JS.truthy u && negb (JS.inherited u)
    then Utils.shortId id <$> firstIndexOf u (Utils.chunkUrl <$> chunks)
    else None.
Proof.
  unfold Utils.resolveUrls. rewrite resolveFrom_lookup.
  - rewrite lookup_empty. done.
  - intros k s. by rewrite lookup_empty.
Qed.

(** C6: within a batch, two URLs with the same short identifier are the
    same URL; a mapped URL is non-empty, names no member of
    Object.prototype, occurs among the chunks, and its one identifier is
    formed from the index of its first occurrence, so a repeated URL keeps
    the mapping of its first occurrence; every non-empty URL of the chunks
    that names no member of Object.prototype is mapped; the empty URL,
    which also stands for an absent one, has no mapping, and neither has a
    URL such as "constructor" that names a member of Object.prototype, for
    which the guard of the loop reads the inherited member. *)
Theorem resolveUrls_injective (chunks : list GroundingChunk) (id : Z) :
  let resolvedMap := Utils.resolveUrls chunks id in
  let urls := Utils.chunkUrl <$> chunks in
  (∀ u1 u2 s, resolvedMap !! u1 = Some s → resolvedMap !! u2 = Some s → u1 = u2)
  ∧ (∀ u s, resolvedMap !! u = Some s →
       u ≠ "" ∧ JS.inherited u = false
       ∧ ∃ i, urls !! i = Some u
              ∧ (∀ j, (j < i)%nat → urls !! j ≠ Some u)
              ∧ s = Utils.shortId id i)
  ∧ (∀ u, u ≠ "" → JS.inherited u = false → u ∈ urls →
       is_Some (resolvedMap !! u))
  ∧ resolvedMap !! "" = None
  ∧ (∀ u, JS.inherited u = true → resolvedMap !! u = None)
  ∧ Utils.resolveUrls [urlChunk "constructor"; urlChunk "http://a.example/"] id
    = {[ "http://a.example/" := Utils.shortId id 1 ]}.
Proof.
  intros resolvedMap urls.
  assert (Hmapped : ∀ u s, resolvedMap !! u = Some s →
            u ≠ "" ∧ JS.inherited u = false
            ∧ ∃ i, urls !! i = Some u
                   ∧ (∀ j, (j < i)%nat → urls !! j ≠ Some u)
                   ∧ s = Utils.shortId id i).
  { intros u s. unfold resolvedMap. rewrite resolveUrls_lookup.
    destruct (JS.truthy u) eqn:Ht; [|done].
    destruct (JS.inherited u) eqn:Hinh; [done|]. simpl.
    intros H. apply fmap_Some in H as (i & Hi & ->).
    apply firstIndexOf_Some in Hi as [Hi Hlt].
    split; [by apply truthy_nonempty|]. split; [done|]. by exists i. }
  split; [|split; [exact Hmapped|split; [|split; [|split]]]].
  - intros u1 u2 s H1 H2.
    apply Hmapped in H1 as (_ & _ & i1 & Hi1 & _ & ->).
    apply Hmapped in H2 as (_ & _ & i2 & Hi2 & _ & Heq).
    apply shortId_inj in Heq as ->. congruence.
  - intros u Hne Hinh Hin. unfold resolvedMap. rewrite resolveUrls_lookup.
    apply truthy_nonempty in Hne as ->. rewrite Hinh. simpl.
    destruct (firstIndexOf_elem u urls Hin) as [i Hi].
    fold urls. rewrite Hi. by eexists.
  - unfold resolvedMap. by rewrite resolveUrls_lookup.
  - intros u Hinh. unfold resolvedMap. rewrite resolveUrls_lookup.
    by rewrite Hinh, andb_false_r.
  - apply map_eq. intros u. rewrite resolveUrls_lookup.
    destruct (decide (u = "http://a.example/")) as [->|Hne].
    { by rewrite lookup_singleton_eq. }
    rewrite lookup_singleton_ne by done.
    destruct (JS.truthy u && negb (JS.inherited u)) eqn:Hg; [|done].
    rewrite !fmap_cons, !firstIndexOf_cons. cbn [Utils.chunkUrl urlChunk web uri].
    destruct (decide ("constructor" = u)) as [<-|_]; [done|].
    by rewrite decide_False by done.
Qed.

Lemma resolveUrls_injective_witness :
  "http://b.example/" ≠ ""
  ∧ JS.inherited "http://b.example/" = false
  ∧ ∃ i, (Utils.chunkUrl <$> repeatedChunks) !! i = Some "http://b.example/"
         ∧ (∀ j, (j < i)%nat →
              (Utils.chunkUrl <$> repeatedChunks) !! j
              ≠ Some "http://b.example/")
         ∧ Utils.shortId 3 1 = Utils.shortId 3 i.
Proof.
  apply (proj1 (proj2 (resolveUrls_injective repeatedChunks 3))
           "http://b.example/" (Utils.shortId 3 1)).
  vm_compute. reflexivity.
Defined.

(** ** Short identifiers as substitution tokens *)

(** C3 fails on the code: in a batch of eleven distinct URLs the
    identifier of index 1 is a proper prefix of the identifier of index 10,
    and the substitution of [finalizeAnswer] rewrites the longer one with
    the URL of the shorter one and drops the source it belongs to. *)
Theorem shortId_prefix_overlap :
  let resolvedMap := Utils.resolveUrls elevenChunks 0 in
  resolvedMap !! "http://site1.example/"
    = Some "https://vertexaisearch.cloud.google.com/id/0-1"
  ∧ resolvedMap !! "http://site10.example/"
    = Some "https://vertexaisearch.cloud.google.com/id/0-10"
  ∧ Utils.shortId 0 10 = Utils.shortId 0 1 +:+ "0"
  ∧ JS.includes (Utils.shortId 0 10) (Utils.shortId 0 1) = true
  ∧ Nodes.finalizeSources ("See " +:+ Utils.shortId 0 10) [sourceOne; sourceTen]
    = ("See http://site1.example/0", [sourceOne]).
Proof. vm_compute. repeat split; reflexivity. Qed.

(** ** The unique sources of formatSources and finalizeAnswer *)

Lemma keepUnseen_fold (sources : list SourceInfo) :
  ∀ (acc : list SourceInfo) (seen : gset string),
    (∀ v, v ∈ seen ↔ v ∈ value <$> acc) →
    NoDup (value <$> acc) →
    ∃ kept,
      (foldl Utils.keepUnseen (acc, seen) sources).1 = acc ++ kept
      ∧ NoDup (value <$> (acc ++ kept))
      ∧ kept `sublist_of` sources
      ∧ (∀ v, v ∈ value <$> (acc ++ kept)
              ↔ v ∈ value <$> acc ∨ v ∈ value <$> sources)
      ∧ (∀ s, s ∈ kept →
           (value s ∉ value <$> acc)
           ∧ ∃ before after, sources = before ++ s :: after
                             ∧ value s ∉ (value <$> before)).
Proof.
  induction sources as [|s rest IH]; intros acc seen Hseen Hnd; simpl.
  { exists []. rewrite app_nil_r. repeat split; try done.
    - intros Hv; by left.
    - intros [Hv|Hv]; [done|]. by apply elem_of_nil in Hv.
    - by apply elem_of_nil in H.
    - by apply elem_of_nil in H. }
  destruct (decide (value s ∈ seen)) as [Hin|Hnin].
  - destruct (IH acc seen Hseen Hnd) as (kept & Heq & Hnd' & Hsub & Hval & Hfirst).
    exists kept. split; [done|]. split; [done|].
    split; [by apply sublist_cons|]. split.
    + intros v. rewrite Hval, elem_of_cons.
      split; [tauto|]. intros [Hv|[->|Hv]]; [tauto| |tauto].
      left. by apply Hseen.
    + intros x Hx. destruct (Hfirst x Hx) as (Hacc & before & after & -> & Hb).
      split; [done|]. exists (s :: before), after. split; [done|].
      simpl. rewrite elem_of_cons. intros [Heq'|Hb']; [|done].
      apply Hacc. rewrite Heq'. by apply Hseen.
  - destruct (IH (acc ++ [s]) ({[ value s ]} ∪ seen))
      as (kept & Heq & Hnd' & Hsub & Hval & Hfirst).
    { intros v. rewrite fmap_app, elem_of_app, elem_of_union, elem_of_singleton.
      rewrite Hseen. simpl. rewrite list_elem_of_singleton. tauto. }
    { rewrite fmap_app. apply NoDup_app. split; [done|]. split.
      - intros v Hv. simpl. rewrite list_elem_of_singleton. intros ->.
        apply Hnin. by apply Hseen.
      - simpl. apply NoDup_singleton. }
    exists (s :: kept). rewrite <- app_assoc in Heq, Hnd', Hval. simpl in *.
    split; [done|]. split; [done|]. split; [by apply sublist_skip|]. split.
    + intros v. rewrite Hval, fmap_app, elem_of_app. simpl.
      rewrite list_elem_of_singleton, elem_of_cons. tauto.
    + intros x Hx. apply elem_of_cons in Hx as [->|Hx].
      * split; [by rewrite <- Hseen|]. exists [], rest. split; [done|].
        simpl. apply not_elem_of_nil.
      * destruct (Hfirst x Hx) as (Hacc & before & after & -> & Hb).
        rewrite fmap_app, elem_of_app in Hacc. simpl in Hacc.
        rewrite list_elem_of_singleton in Hacc.
        split; [tauto|]. exists (s :: before), after. split; [done|].
        simpl. rewrite elem_of_cons. tauto.
Qed.

Lemma uniqueByValue_firstOfEach (sources : list SourceInfo) :
  firstOfEachValue (Utils.uniqueByValue sources) sources.
Proof.
  unfold Utils.uniqueByValue, firstOfEachValue.
  destruct (keepUnseen_fold sources [] ∅)
    as (kept & -> & Hnd & Hsub & Hval & Hfirst).
  { intros v. simpl. rewrite elem_of_nil. set_solver. }
  { constructor. }
  simpl in *. split; [done|]. split; [done|]. split.
  - intros v. rewrite Hval. rewrite elem_of_nil. tauto.
  - intros s Hs. by destruct (Hfirst s Hs) as [_ ?].
Qed.

Lemma replaceAndCollect_fold (gathered : list SourceInfo) :
  ∀ (content : string) (acc : list SourceInfo) (seen : gset string),
    foldl Nodes.replaceAndCollect (content, acc, seen) gathered
    = (finalText content gathered,
       (foldl Utils.keepUnseen (acc, seen) (citedSources content gathered)).1,
       (foldl Utils.keepUnseen (acc, seen) (citedSources content gathered)).2).
Proof.
  induction gathered as [|s rest IH]; intros content acc seen; simpl; [done|].
  unfold cited. destruct (JS.truthy (shortUrl s) && _); simpl.
  - destruct (decide (value s ∈ seen)); by rewrite IH.
  - by rewrite IH.
Qed.

Lemma finalizeSources_unfold (content : string) (gathered : list SourceInfo) :
  Nodes.finalizeSources content gathered
  = (finalText content gathered,
     Utils.uniqueByValue (citedSources content gathered)).
Proof.
  unfold Nodes.finalizeSources, Utils.uniqueByValue.
  by rewrite replaceAndCollect_fold.
Qed.

Lemma citedSources_sublist (gathered : list SourceInfo) :
  ∀ content, citedSources content gathered `sublist_of` gathered.
Proof.
  induction gathered as [|s rest IH]; intros content; simpl; [done|].
  destruct (cited content s); [apply sublist_skip|apply sublist_cons]; apply IH.
Qed.

(** ** The global replace of finalizeAnswer *)

Lemma append_cons (c : ascii) (s t : string) :
  String c s +:+ t = String c (s +:+ t).
Proof. reflexivity. Qed.

Lemma append_empty_l (t : string) : "" +:+ t = t.
Proof. reflexivity. Qed.

Lemma prefix_append (pat rest : string) : String.prefix pat (pat +:+ rest) = true.
Proof.
  induction pat as [|c pat IH]; [by destruct rest|].
  rewrite append_cons. simpl. by destruct (ascii_dec c c).
Qed.

Lemma dropStr_append (pat rest : string) :
  JS.dropStr (String.length pat) (pat +:+ rest) = rest.
Proof. induction pat as [|c pat IH]; [done|]. by rewrite append_cons. Qed.

Lemma getSubstitution_dollarFree (matched before after template : string) :
  dollarFree template = true →
  JS.getSubstitution matched before after template = template.
Proof.
  induction template as [|c rest IH]; simpl; [done|].
  destruct (Ascii.eqb c "$"); simpl; [done|]. intros H. by rewrite IH.
Qed.

Lemma replaceScan_skip (pat template : string) (p : string) :
  ∀ seen rest,
    JS.replaceScan pat template seen (String.length p) (p +:+ rest)
    = JS.replaceScan pat template (String.rev_app p seen) O rest.
Proof.
  induction p as [|c p IH]; intros seen rest.
  - rewrite append_empty_l. simpl. by destruct rest.
  - rewrite append_cons. simpl. apply IH.
Qed.

Lemma replaceScan_seen (pat template : string) :
  dollarFree template = true →
  ∀ s seen seen' skip,
    JS.replaceScan pat template seen skip s
    = JS.replaceScan pat template seen' skip s.
Proof.
  intros Hfree. induction s as [|c s IH]; intros seen seen' skip; [done|].
  cbn [JS.replaceScan]. destruct skip as [|k]; [|apply IH].
  destruct (String.prefix pat (String c s)).
  - rewrite !getSubstitution_dollarFree by done. f_equal. apply IH.
  - f_equal. apply IH.
Qed.

Lemma replaceScan_absent (pat template : string) :
  ∀ s seen,
    JS.includes s pat = false → JS.replaceScan pat template seen O s = s.
Proof.
  induction s as [|c s IH]; intros seen; [done|].
  cbn [JS.includes JS.replaceScan]. intros H.
  apply orb_false_iff in H as [-> H]. f_equal. by apply IH.
Qed.

(** The equations of the replacement by a text without dollar signs: a
    match at the head is replaced and the scan goes on behind it; a
    character that starts no match is kept. *)
Lemma replaceAllLiteral_equations (pat url : string) :
  pat ≠ "" → dollarFree url = true →
  JS.replaceAllLiteral "" pat url = ""
  ∧ (∀ rest, JS.replaceAllLiteral (pat +:+ rest) pat url
             = url +:+ JS.replaceAllLiteral rest pat url)
  ∧ (∀ c s, String.prefix pat (String c s) = false →
            JS.replaceAllLiteral (String c s) pat url
            = String c (JS.replaceAllLiteral s pat url))
  ∧ (∀ s, JS.includes s pat = false → JS.replaceAllLiteral s pat url = s).
Proof.
  intros Hpat Hfree. unfold JS.replaceAllLiteral.
  split; [done|]. split; [|split].
  - intros rest. destruct pat as [|c p]; [done|].
    rewrite append_cons. cbn [JS.replaceScan].
    rewrite <- append_cons, prefix_append.
    rewrite getSubstitution_dollarFree by done. f_equal.
    replace (String.length (String c p) - 1)%nat with (String.length p)
      by (simpl; lia).
    rewrite replaceScan_skip. by apply replaceScan_seen.
  - intros c s Hno. cbn [JS.replaceScan]. rewrite Hno. f_equal.
    by apply replaceScan_seen.
  - intros s. apply replaceScan_absent.
Qed.

Lemma finalize_uncited (gathered : list SourceInfo) (content : string) :
  (∀ source, source ∈ gathered → cited content source = false) →
  finalText content gathered = content ∧ citedSources content gathered = [].
Proof.
  induction gathered as [|s rest IH]; intros Hno; simpl; [done|].
  rewrite (Hno s) by left. apply IH. intros x Hx. apply Hno. by right.
Qed.

Lemma citedSources_shortUrl (gathered : list SourceInfo) :
  ∀ content source,
    source ∈ citedSources content gathered → shortUrl source ≠ "".
Proof.
  induction gathered as [|s rest IH]; intros content source; simpl.
  { intros H. by apply elem_of_nil in H. }
  destruct (cited content s) eqn:Hc; [|apply IH].
  intros H. apply elem_of_cons in H as [->|H]; [|by eapply IH].
  unfold cited in Hc. apply andb_true_iff in Hc as [Hc _].
  by apply truthy_nonempty.
Qed.

(** C4, as amended: finalizeAnswer returns the text and the sources its
    loop ends with.  The loop goes through the gathered sources in order; a
    source whose short identifier is non-empty and occurs in the text at
    its turn has every occurrence replaced, left to right, by its original
    URL (for a URL without a dollar sign), any other source leaves the text
    as it is and is left out of the result; the returned list holds the
    first source of every distinct original URL among the sources that
    passed, in their order.  formatSources lists the first source of every
    distinct original URL of the whole list, in first-seen order. *)
Theorem finalizeAnswer_dedup (content : string) (gathered : list SourceInfo) :
  (∀ st configuration,
     sourcesGathered st = gathered →
     u_messages (Nodes.finalizeAnswer st configuration content)
     = StateReducers.Many
         [AIMessage (Nodes.finalizeSources content gathered).1]
     ∧ u_sourcesGathered (Nodes.finalizeAnswer st configuration content)
       = StateReducers.Many (Nodes.finalizeSources content gathered).2)
  ∧ (Nodes.finalizeSources content gathered).1 = finalText content gathered
  ∧ firstOfEachValue (Nodes.finalizeSources content gathered).2
      (citedSources content gathered)
  ∧ citedSources content gathered `sublist_of` gathered
  ∧ (∀ source, source ∈ citedSources content gathered → shortUrl source ≠ "")
  ∧ ((∀ source, source ∈ gathered → cited content source = false) →
     Nodes.finalizeSources content gathered = (content, []))
  ∧ (∀ pat url, pat ≠ "" → dollarFree url = true →
       (∀ rest, JS.replaceAllLiteral (pat +:+ rest) pat url
                = url +:+ JS.replaceAllLiteral rest pat url)
       ∧ (∀ c s, String.prefix pat (String c s) = false →
                 JS.replaceAllLiteral (String c s) pat url
                 = String c (JS.replaceAllLiteral s pat url)))
  ∧ firstOfEachValue (Utils.uniqueByValue gathered) gathered
  ∧ Nodes.finalizeSources "See s1, s2 and s3." gatheredThree
    = ("See http://a, http://a and http://b.",
       [ {| label := "a"; shortUrl := "s1"; value := "http://a" |};
         {| label := "b"; shortUrl := "s3"; value := "http://b" |} ])
  ∧ Utils.formatSources gatheredThree
    = "[1] a: http://a" +:+ Utils.newline +:+ "[2] b: http://b".
Proof.
  split.
  { intros st configuration <-. unfold Nodes.finalizeAnswer.
    by destruct (Nodes.finalizeSources content (sourcesGathered st)). }
  rewrite finalizeSources_unfold. simpl.
  split; [done|]. split; [apply uniqueByValue_firstOfEach|].
  split; [apply citedSources_sublist|].
  split; [apply citedSources_shortUrl|]. split.
  { intros Hno. destruct (finalize_uncited gathered content Hno) as [-> ->].
    done. }
  split.
  { intros pat url Hpat Hfree.
    destruct (replaceAllLiteral_equations pat url Hpat Hfree) as (_ & H1 & H2 & _).
    by split. }
  split; [apply uniqueByValue_firstOfEach|].
  split; [|by vm_compute]. by vm_compute.
Qed.

(** C4, as stated, fails: the gathered values are http://a, http://a and
    http://b, no short identifier occurs in the answer, and the returned
    list is empty instead of holding a and b. *)
Lemma finalizeAnswer_omits_uncited :
  value <$> gatheredThree = ["http://a"; "http://a"; "http://b"]
  ∧ Nodes.finalizeSources "No source is cited here." gatheredThree
    = ("No source is cited here.", []).
Proof. by vm_compute. Qed.

(** ** getCitations *)

Lemma pushSource_app (chunks : option (list GroundingChunk))
    (m : gmap string string) (segs : list SourceInfo) (ind : Z) :
  Utils.pushSource chunks m segs ind
  = segs ++ option_list (sourceOf chunks m ind).
Proof.
  unfold sourceOf, Utils.pushSource.
  destruct (Utils.chunkAt chunks ind) as [chunk|]; [|by rewrite app_nil_r].
  destruct (web chunk) as [w|]; [|by rewrite app_nil_r].
  destruct (uri w) as [u|]; [|by rewrite app_nil_r].
  destruct (JS.truthy u); simpl; [|by rewrite app_nil_r].
  destruct (JS.get m u) as [r|member|]; [|done|by rewrite app_nil_r].
  destruct (JS.truthy r); simpl; [done|by rewrite app_nil_r].
Qed.

Lemma pushSource_fold (chunks : option (list GroundingChunk))
    (m : gmap string string) (inds : list Z) :
  ∀ segs, foldl (Utils.pushSource chunks m) segs inds
          = segs ++ omap (sourceOf chunks m) inds.
Proof.
  induction inds as [|ind inds IH]; intros segs; simpl.
  { by rewrite app_nil_r. }
  rewrite IH, pushSource_app, <- app_assoc. f_equal.
  by destruct (sourceOf chunks m ind).
Qed.

Lemma pushCitation_fold (chunks : option (list GroundingChunk))
    (m : gmap string string) (supports : list GroundingSupport) :
  ∀ citations, foldl (Utils.pushCitation chunks m) citations supports
               = citations ++ omap (Utils.citationOf chunks m) supports.
Proof.
  induction supports as [|support supports IH]; intros citations; simpl.
  { by rewrite app_nil_r. }
  rewrite IH. unfold Utils.pushCitation.
  destruct (Utils.citationOf chunks m support); [|done].
  by rewrite <- app_assoc.
Qed.

Lemma getCitations_omap (response : GoogleAIResponse) (m : gmap string string) :
  Utils.getCitations response m
  = omap (Utils.citationOf (chunksOf response) m) (supportsOf response).
Proof.
  unfold Utils.getCitations, supportsOf, chunksOf, metadataOf.
  destruct (candidates response) as [[|candidate ?]|]; [done| |done].
  destruct (groundingMetadata candidate) as [metadata|]; [|done].
  destruct (groundingSupports metadata) as [supports|]; [|done].
  by rewrite pushCitation_fold.
Qed.

Lemma sourceOf_resolvesTo (chunks : option (list GroundingChunk))
    (m : gmap string string) (ind : Z) (source : SourceInfo) :
  sourceOf chunks m ind = Some source ↔ resolvesTo chunks m ind source.
Proof.
  unfold sourceOf, resolvesTo, Utils.pushSource. split.
  - destruct (Utils.chunkAt chunks ind) as [chunk|]; [|done].
    destruct (web chunk) as [w|] eqn:Hw; [|done].
    destruct (uri w) as [u|] eqn:Hu; [|done].
    destruct (JS.truthy u) eqn:Htu; simpl; [|done].
    unfold JS.get. destruct (m !! u) as [r|] eqn:Hr.
    + destruct (JS.truthy r) eqn:Htr; simpl; [|done].
      intros [= <-]. exists chunk, w, u, r.
      repeat split; try done; [by apply truthy_nonempty|].
      left. split; [done|]. by apply truthy_nonempty.
    + destruct (JS.inherited u) eqn:Hinh; [|done].
      intros [= <-]. exists chunk, w, u, (JS.memberText u).
      repeat split; try done; [by apply truthy_nonempty|]. by right.
  - intros (chunk & w & u & r & -> & -> & -> & Hu & Hr & ->).
    apply truthy_nonempty in Hu as ->. simpl. unfold JS.get.
    destruct Hr as [[-> Hr]|(-> & -> & ->)]; [|done].
    by apply truthy_nonempty in Hr as ->.
Qed.

Lemma citationOf_Some (chunks : option (list GroundingChunk))
    (m : gmap string string) (support : GroundingSupport) (c : CitationInfo) :
  Utils.citationOf chunks m support = Some c
  ↔ ∃ seg e,
      segment support = Some seg ∧ seg_endIndex seg = Some e
      ∧ c = {| startIndex := default 0 (seg_startIndex seg);
               endIndex := e;
               segments := omap (sourceOf chunks m)
                             (default [] (groundingChunkIndices support)) |}
      ∧ segments c ≠ [].
Proof.
  unfold Utils.citationOf.
  assert (Hsegs :
    match groundingChunkIndices support with
    | Some inds => foldl (Utils.pushSource chunks m) [] inds
    | None => []
    end = omap (sourceOf chunks m) (default [] (groundingChunkIndices support))).
  { destruct (groundingChunkIndices support); [|done]. by rewrite pushSource_fold. }
  rewrite Hsegs. clear Hsegs.
  set (segs := omap _ _).
  destruct (segment support) as [seg|];
    [|split; [done|]; intros (? & ? & ? & _); simplify_eq].
  destruct (seg_endIndex seg) as [e|] eqn:He;
    [|split; [done|]; intros (? & ? & ? & ? & _); simplify_eq].
  split.
  - destruct segs as [|s segs']; simpl; [done|].
    intros [= <-]. exists seg, e. by destruct (seg_startIndex seg).
  - intros (seg' & e' & Hs & He' & -> & Hne). simplify_eq. simpl in Hne.
    destruct segs; [done|]. simpl. by destruct (seg_startIndex seg').
Qed.













(** ** webResearch and the accumulated fields *)

Lemma webResearch_cases (state : WebSearchState) (configuration : Configuration)
    (outcome : Thrown + GoogleAIResponse) :
  (∃ error, Nodes.webResearch state configuration outcome
            = Nodes.webResearchFallback state error)
  ∨ (∃ modifiedText sources,
       Nodes.webResearch state configuration outcome
       = {| u_messages := StateReducers.Undefined;
            u_searchQuery := StateReducers.Many [ws_searchQuery state];
            u_webResearchResult := StateReducers.Many [modifiedText];
            u_sourcesGathered := StateReducers.Many sources;
            u_initialSearchQueryCount := None;
            u_maxResearchLoops := None;
            u_researchLoopCount := None;
            u_reasoningModel := None;
            u_queryList := None;
            u_isSufficient := None;
            u_knowledgeGap := None;
            u_followUpQueries := StateReducers.Undefined;
            u_numberOfRanQueries := None |}).
Proof.
  destruct outcome as [error|response]; simpl; [left; by eexists|].
  destruct (text response) as [error|responseText];
    [left; by eexists|right; by do 2 eexists].
Qed.

(** What the update of one branch does to the state. *)
Lemma webResearch_merge (st : OverallState) (state : WebSearchState)
    (configuration : Configuration) (outcome : Thrown + GoogleAIResponse) :
  let st' := applyUpdate st (Nodes.webResearch state configuration outcome) in
  searchQuery st' = searchQuery st ++ [ws_searchQuery state]
  ∧ (∃ result, webResearchResult st' = webResearchResult st ++ [result])
  ∧ researchLoopCount st' = researchLoopCount st
  ∧ maxResearchLoops st' = maxResearchLoops st
  ∧ isSufficient st' = isSufficient st
  ∧ followUpQueries st' = followUpQueries st
  ∧ numberOfRanQueries st' = numberOfRanQueries st.
Proof.
  destruct (webResearch_cases state configuration outcome)
    as [[error ->]|(modifiedText & sources & ->)]; simpl;
    repeat split; by eexists.
Qed.

Lemma mergeBranches_fields (services : Graph.Services)
    (configuration : Configuration) (ordered : list SendObject) :
  ∀ st,
    searchQuery (Graph.mergeBranches services configuration st ordered)
    = searchQuery st ++ queriesOf ordered
    ∧ length (webResearchResult
                (Graph.mergeBranches services configuration st ordered))
      = (length (webResearchResult st) + length ordered)%nat
    ∧ researchLoopCount (Graph.mergeBranches services configuration st ordered)
      = researchLoopCount st
    ∧ maxResearchLoops (Graph.mergeBranches services configuration st ordered)
      = maxResearchLoops st.
Proof.
  unfold Graph.mergeBranches.
  induction ordered as [|send sends IH]; intros st.
  { simpl. rewrite app_nil_r. repeat split; lia. }
  rewrite fmap_cons. cbn [foldl].
  destruct (webResearch_merge st (args send) configuration
              (Graph.searcher services (args send)))
    as (Hq & [result Hr] & Hc & Hm & _).
  destruct (IH (applyUpdate st (Nodes.webResearch (args send) configuration
                                  (Graph.searcher services (args send)))))
    as (Hq' & Hr' & Hc' & Hm').
  rewrite Hq', Hr', Hc', Hm', Hq, Hr, Hc, Hm, <- app_assoc, length_app.
  simpl. repeat split; lia.
Qed.

Lemma completionOrder_perm (services : Graph.Services)
    (sends : list SendObject) :
  Graph.completionOrder services sends ≡ₚ sends.
Proof. apply stableSort_perm. Qed.

(** Whatever the completion order, the join adds the queries of the
    group to [searchQuery] and one result per work item. *)
Lemma joinBranches_fields (services : Graph.Services)
    (configuration : Configuration) (sends : list SendObject)
    (st : OverallState) :
  searchQuery (Graph.joinBranches services configuration st sends)
  ≡ₚ searchQuery st ++ queriesOf sends
  ∧ length (searchQuery (Graph.joinBranches services configuration st sends))
    = (length (searchQuery st) + length sends)%nat
  ∧ length (webResearchResult
              (Graph.joinBranches services configuration st sends))
    = (length (webResearchResult st) + length sends)%nat
  ∧ researchLoopCount (Graph.joinBranches services configuration st sends)
    = researchLoopCount st
  ∧ maxResearchLoops (Graph.joinBranches services configuration st sends)
    = maxResearchLoops st.
Proof.
  unfold Graph.joinBranches.
  destruct (mergeBranches_fields services configuration
              (Graph.completionOrder services sends) st)
    as (Hq & Hr & Hc & Hm).
  pose proof (completionOrder_perm services sends) as Hperm.
  rewrite Hq, Hr, Hc, Hm, length_app. unfold queriesOf.
  rewrite length_fmap, (Permutation_length Hperm).
  repeat split. by rewrite Hperm.
Qed.

(** ** The research loop *)

Lemma evaluateResearch_cases (st : OverallState) (configuration : Configuration) :
  (Nodes.evaluateResearch st configuration = NodeName "finalizeAnswer"
   ∧ (isSufficient st = true
      ∨ effectiveMaxLoops st configuration ≤ researchLoopCount st))
  ∨ (Nodes.evaluateResearch st configuration
     = Sends (imap (λ idx followUpQuery,
                      {| node := "webResearch";
                         args := {| ws_searchQuery := followUpQuery;
                                    ws_id := numberOfRanQueries st
                                             + Z.of_nat idx |} |})
                   (followUpQueries st))
     ∧ isSufficient st = false
     ∧ researchLoopCount st < effectiveMaxLoops st configuration).
Proof.
  unfold Nodes.evaluateResearch, effectiveMaxLoops.
  destruct (isSufficient st); simpl; [left; by auto|].
  destruct (Z.geb_spec (researchLoopCount st)
              (match maxResearchLoops st with
               | Some m => m
               | None => cfg_maxResearchLoops configuration
               end)) as [Hge|Hlt].
  - left. split; [done|]. right. lia.
  - right. split; [done|]. split; [done|]. lia.
Qed.

Lemma reflectedState_fields (configuration : Configuration)
    (joined : OverallState) (result : ReflectionResponse) :
  let reflected := reflectedState configuration joined result in
  researchLoopCount reflected = researchLoopCount joined + 1
  ∧ maxResearchLoops reflected = maxResearchLoops joined
  ∧ isSufficient reflected = r_isSufficient result
  ∧ searchQuery reflected = searchQuery joined
  ∧ numberOfRanQueries reflected = Z.of_nat (length (searchQuery joined))
  ∧ followUpQueries reflected
    = followUpQueries joined ++ r_followUpQueries result.
Proof.
  simpl. repeat split.
  destruct (Z.eqb_spec (researchLoopCount joined) 0) as [->|]; lia.
Qed.

Lemma finalizeAnswer_fields (st : OverallState) (configuration : Configuration)
    (content : string) :
  let final := applyUpdate st (Nodes.finalizeAnswer st configuration content) in
  researchLoopCount final = researchLoopCount st
  ∧ searchQuery final = searchQuery st
  ∧ numberOfRanQueries final = numberOfRanQueries st
  ∧ sourcesGathered final
    = sourcesGathered st
      ++ (Nodes.finalizeSources content (sourcesGathered st)).2.
Proof.
  unfold Nodes.finalizeAnswer.
  by destruct (Nodes.finalizeSources content (sourcesGathered st)).
Qed.

Section research_loop.
Context (services : Graph.Services) (configuration : Configuration).
Context (P : OverallState → list SendObject → list (list SendObject)
             → Graph.RunResult → Prop).

Hypothesis P_fuel : ∀ st sends, P st sends [] Graph.OutOfFuel.
Hypothesis P_stalled : ∀ st, P st [] [] (Graph.Stalled st).
Hypothesis P_reflector_fails : ∀ st sends error,
  sends ≠ [] →
  Graph.reflector services
    (Graph.joinBranches services configuration st sends) = inl error →
  P st sends [sends] (Graph.Aborted error).
Hypothesis P_answerer_fails : ∀ st sends result error,
  sends ≠ [] →
  let joined := Graph.joinBranches services configuration st sends in
  let reflected := reflectedState configuration joined result in
  Graph.reflector services joined = inr result →
  Nodes.evaluateResearch reflected configuration = NodeName "finalizeAnswer" →
  Graph.answerer services reflected = inl error →
  P st sends [sends] (Graph.Aborted error).
Hypothesis P_finished : ∀ st sends result content,
  sends ≠ [] →
  let joined := Graph.joinBranches services configuration st sends in
  let reflected := reflectedState configuration joined result in
  Graph.reflector services joined = inr result →
  Nodes.evaluateResearch reflected configuration = NodeName "finalizeAnswer" →
  Graph.answerer services reflected = inr content →
  P st sends [sends]
    (Graph.Finished
       (applyUpdate reflected
          (Nodes.finalizeAnswer reflected configuration content))).
Hypothesis P_continue : ∀ st sends result items groups res,
  sends ≠ [] →
  let joined := Graph.joinBranches services configuration st sends in
  let reflected := reflectedState configuration joined result in
  Graph.reflector services joined = inr result →
  Nodes.evaluateResearch reflected configuration = Sends items →
  P reflected items groups res →
  P st sends (sends :: groups) res.

(** Induction over the turns of the loop. *)
Lemma researchLoop_induction (fuel : nat) :
  ∀ st sends,
    P st sends
      (Graph.researchLoop fuel services configuration st sends).1
      (Graph.researchLoop fuel services configuration st sends).2.
Proof.
  induction fuel as [|fuel IH]; intros st sends; [apply P_fuel|].
  cbn [Graph.researchLoop].
  destruct sends as [|send sends]; [apply P_stalled|].
  set (all := send :: sends).
  assert (Hne : all ≠ []) by done.
  destruct (Graph.reflector services
              (Graph.joinBranches services configuration st all))
    as [error|result] eqn:Hr; [by apply P_reflector_fails|].
  fold (reflectedState configuration
          (Graph.joinBranches services configuration st all) result).
  destruct (evaluateResearch_cases
              (reflectedState configuration
                 (Graph.joinBranches services configuration st all) result)
              configuration) as [[He _]|[He _]]; rewrite He.
  - rewrite decide_True by done.
    destruct (Graph.answerer services _) as [error|content] eqn:Ha.
    + by eapply P_answerer_fails.
    + by eapply P_finished.
  - specialize (IH (reflectedState configuration
                      (Graph.joinBranches services configuration st all) result)
                   (imap (λ idx followUpQuery,
                      {| node := "webResearch";
                         args := {| ws_searchQuery := followUpQuery;
                                    ws_id := numberOfRanQueries
                                               (reflectedState configuration
                                                  (Graph.joinBranches services
                                                     configuration st all) result)
                                             + Z.of_nat idx |} |})
                      (followUpQueries
                         (reflectedState configuration
                            (Graph.joinBranches services configuration st all)
                            result)))).
    destruct (Graph.researchLoop fuel services configuration _ _)
      as [groups res].
    by eapply P_continue.
Qed.

End research_loop.




Lemma idsOf_imap (from : Z) (queries : list string) :
  idsOf (imap (λ idx followUpQuery,
                 {| node := "webResearch";
                    args := {| ws_searchQuery := followUpQuery;
                               ws_id := from + Z.of_nat idx |} |})
              queries)
  = idsFrom from (length queries).
Proof.
  unfold idsOf, idsFrom. apply list_eq. intros i.
  rewrite list_lookup_fmap, list_lookup_imap.
  destruct (queries !! i) as [q|] eqn:Hq; simpl.
  - symmetry. apply lookup_seqZ_lt. apply lookup_lt_Some in Hq. lia.
  - symmetry. apply lookup_seqZ_ge. apply lookup_ge_None in Hq. lia.
Qed.

Lemma idsFrom_app (from : Z) (n m : nat) :
  idsFrom from n ++ idsFrom (from + Z.of_nat n) m = idsFrom from (n + m).
Proof.
  unfold idsFrom. rewrite Nat2Z.inj_add. symmetry. apply seqZ_app; lia.
Qed.

Lemma elem_of_idsFrom (from : Z) (n : nat) (id : Z) :
  id ∈ idsFrom from n ↔ from ≤ id < from + Z.of_nat n.
Proof. unfold idsFrom. apply elem_of_seqZ. Qed.

(** The work items of [evaluateResearch]: one per follow-up query, in
    order, for the research node, numbered from [numberOfRanQueries]. *)
Lemma evaluateResearch_items (st : OverallState) (configuration : Configuration)
    (items : list SendObject) :
  Nodes.evaluateResearch st configuration = Sends items →
  idsOf items = idsFrom (numberOfRanQueries st) (length items)
  ∧ length items = length (followUpQueries st)
  ∧ ∀ i q, followUpQueries st !! i = Some q →
      items !! i
      = Some {| node := "webResearch";
                args := {| ws_searchQuery := q;
                           ws_id := numberOfRanQueries st + Z.of_nat i |} |}.
Proof.
  destruct (evaluateResearch_cases st configuration) as [[-> _]|[-> _]];
    [done|].
  intros [= <-]. rewrite idsOf_imap, length_imap. split; [done|].
  split; [done|]. intros i q Hq. by rewrite list_lookup_imap, Hq.
Qed.

(** The groups after the first are numbered on from the length of
    [searchQuery]. *)
Lemma researchLoop_ids (services : Graph.Services)
    (configuration : Configuration) (fuel : nat) (st : OverallState)
    (sends : list SendObject) :
  let groups := (Graph.researchLoop fuel services configuration st sends).1 in
  groups = []
  ∨ ∃ rest,
      groups = sends :: rest
      ∧ Graph.mintedIds rest
        = idsFrom (Z.of_nat (length (searchQuery st) + length sends))
            (length (concat rest)).
Proof.
  apply (researchLoop_induction services configuration
    (λ st sends groups _,
       groups = []
       ∨ ∃ rest,
           groups = sends :: rest
           ∧ Graph.mintedIds rest
             = idsFrom (Z.of_nat (length (searchQuery st) + length sends))
                 (length (concat rest)))); clear.
  - by left.
  - by left.
  - intros. right. by exists [].
  - intros. right. by exists [].
  - intros. right. by exists [].
  - intros st sends result items groups res _ joined reflected Hr He IH.
    right. exists groups. split; [done|].
    destruct (evaluateResearch_items reflected configuration items He)
      as (Hitems & _).
    destruct (reflectedState_fields configuration joined result)
      as (_ & _ & _ & Hsq & Hran & _).
    fold reflected in Hsq, Hran.
    destruct (joinBranches_fields services configuration sends st)
      as (Hjoin & _).
    fold joined in Hjoin. clearbody reflected joined.
    assert (Hlen : length (searchQuery reflected)
                   = (length (searchQuery st) + length sends)%nat).
    { rewrite Hsq, Hjoin, length_app. unfold queriesOf.
      by rewrite length_fmap. }
    destruct IH as [->|(rest & -> & Hrest)]; [done|].
    unfold Graph.mintedIds in *. rewrite concat_cons, fmap_app.
    fold (idsOf items).
    rewrite Hitems, Hrest, Hran, <- Hsq, Hlen, length_app.
    rewrite <- idsFrom_app. do 2 f_equal. lia.
Qed.

Lemma continueToWebResearch_ids (st : OverallState) :
  idsOf (Nodes.continueToWebResearch st) = idsFrom 0 (length (queryList st)).
Proof.
  unfold Nodes.continueToWebResearch, idsOf, idsFrom. apply list_eq. intros i.
  rewrite list_lookup_fmap, list_lookup_imap.
  destruct (queryList st !! i) as [q|] eqn:Hq; simpl.
  - symmetry. rewrite lookup_seqZ_lt; [done|].
    apply lookup_lt_Some in Hq. lia.
  - symmetry. apply lookup_seqZ_ge. apply lookup_ge_None in Hq. lia.
Qed.

Lemma runGraph_ids (services : Graph.Services) (configuration : Configuration)
    (fuel : nat) (initialState : OverallState) :
  let groups := (Graph.runGraph fuel services configuration initialState).1 in
  ∃ n m,
    Graph.mintedIds groups
    = idsFrom 0 n
      ++ idsFrom (Z.of_nat (length (searchQuery initialState) + n)) m.
Proof.
  unfold Graph.runGraph.
  destruct (Graph.queryWriter services initialState) as [error|result].
  { exists O, O. reflexivity. }
  set (generated := applyUpdate initialState _).
  destruct (researchLoop_ids services configuration fuel generated
              (Nodes.continueToWebResearch generated)) as [->|(rest & -> & Hrest)].
  { exists O, O. reflexivity. }
  exists (length (Nodes.continueToWebResearch generated)), (length (concat rest)).
  unfold Graph.mintedIds in *. rewrite concat_cons, fmap_app, Hrest.
  fold (idsOf (Nodes.continueToWebResearch generated)).
  rewrite continueToWebResearch_ids.
  unfold Nodes.continueToWebResearch. rewrite length_imap. reflexivity.
Qed.

Lemma NoDup_idsFrom (from : Z) (n : nat) : NoDup (idsFrom from n).
Proof. apply NoDup_seqZ. Qed.

Lemma length_idsFrom (from : Z) (n : nat) : length (idsFrom from n) = n.
Proof. unfold idsFrom. rewrite length_seqZ. lia. Qed.

(** C8: when evaluateResearch does not return finalizeAnswer it returns
    one work item per entry of followUpQueries, in order, each for the
    research node and numbered numberOfRanQueries + its index.  The first
    fan-out of a run is numbered from 0, and over a whole run no identifier
    is minted twice; from an empty searchQuery the identifiers of a run are
    0, 1, 2, ... in the order of dispatch.  In terms of one state: if every
    earlier identifier is below numberOfRanQueries, no new item has one of
    them. *)
Theorem evaluateResearch_workItems :
  (∀ st configuration,
     Nodes.evaluateResearch st configuration ≠ NodeName "finalizeAnswer" →
     ∃ items,
       Nodes.evaluateResearch st configuration = Sends items
       ∧ length items = length (followUpQueries st)
       ∧ ∀ i q, followUpQueries st !! i = Some q →
           items !! i
           = Some {| node := "webResearch";
                     args := {| ws_searchQuery := q;
                                ws_id := numberOfRanQueries st
                                         + Z.of_nat i |} |})
  ∧ (∀ st, idsOf (Nodes.continueToWebResearch st)
           = idsFrom 0 (length (queryList st)))
  ∧ (∀ fuel services configuration initialState,
       NoDup (Graph.mintedIds
                (Graph.runGraph fuel services configuration initialState).1))
  ∧ (∀ fuel services configuration initialState,
       searchQuery initialState = [] →
       let groups :=
         (Graph.runGraph fuel services configuration initialState).1 in
       Graph.mintedIds groups = idsFrom 0 (length (concat groups)))
  ∧ (∀ st configuration items (earlier : list Z),
       Nodes.evaluateResearch st configuration = Sends items →
       (∀ id, id ∈ earlier → id < numberOfRanQueries st) →
       ∀ id, id ∈ idsOf items → id ∉ earlier).
Proof.
  split; [|split; [|split; [|split]]].
  - intros st configuration Hne.
    destruct (evaluateResearch_cases st configuration) as [[He _]|[He _]];
      [done|].
    eexists. split; [exact He|].
    destruct (evaluateResearch_items st configuration _ He) as (_ & Hlen & Hi).
    by split.
  - apply continueToWebResearch_ids.
  - intros fuel services configuration initialState.
    destruct (runGraph_ids services configuration fuel initialState)
      as (n & m & ->).
    apply NoDup_app. split; [apply NoDup_idsFrom|]. split; [|apply NoDup_idsFrom].
    intros id. rewrite !elem_of_idsFrom. lia.
  - intros fuel services configuration initialState Hempty groups.
    destruct (runGraph_ids services configuration fuel initialState)
      as (n & m & Hids).
    fold groups in Hids. rewrite Hempty in Hids. simpl in Hids.
    replace (Z.of_nat n) with (0 + Z.of_nat n) in Hids by lia.
    rewrite idsFrom_app in Hids.
    assert (Hlen : length (concat groups) = (n + m)%nat).
    { rewrite <- (length_idsFrom 0 (n + m)), <- Hids.
      unfold Graph.mintedIds. by rewrite length_fmap. }
    by rewrite Hlen.
  - intros st configuration items earlier He Hearlier id Hid Hin.
    destruct (evaluateResearch_items st configuration items He) as (Hids & _).
    rewrite Hids in Hid. apply elem_of_idsFrom in Hid.
    specialize (Hearlier id Hin). lia.
Qed.

Lemma evaluateResearch_workItems_witness :
  Graph.mintedIds
    (Graph.runGraph 5 demoServices demoConfiguration demoInitialState).1
  = idsFrom 0
      (length (concat (Graph.runGraph 5 demoServices demoConfiguration
                         demoInitialState).1)).
Proof.
  exact (proj1 (proj2 (proj2 (proj2 evaluateResearch_workItems)))
           5%nat demoServices demoConfiguration demoInitialState eq_refl).
Defined.

(** ** The accumulated queries and the loop budget over a run *)

Lemma researchLoop_queries (services : Graph.Services)
    (configuration : Configuration) (fuel : nat) (st : OverallState)
    (sends : list SendObject) :
  ∀ final,
    (Graph.researchLoop fuel services configuration st sends).2
    = Graph.Finished final →
    searchQuery final
    ≡ₚ searchQuery st
       ++ queriesOf
            (concat (Graph.researchLoop fuel services configuration st sends).1)
    ∧ numberOfRanQueries final = Z.of_nat (length (searchQuery final)).
Proof.
  apply (researchLoop_induction services configuration
    (λ st sends groups res,
       ∀ final, res = Graph.Finished final →
         searchQuery final ≡ₚ searchQuery st ++ queriesOf (concat groups)
         ∧ numberOfRanQueries final = Z.of_nat (length (searchQuery final))));
    clear; try done.
  - intros st sends result content _ joined reflected _ _ _ final [= <-].
    destruct (finalizeAnswer_fields reflected configuration content)
      as (_ & -> & -> & _).
    destruct (reflectedState_fields configuration joined result)
      as (_ & _ & _ & Hsq & Hran & _).
    fold reflected in Hsq, Hran. rewrite Hsq, Hran.
    destruct (joinBranches_fields services configuration sends st) as (Hj & _).
    fold joined in Hj. clearbody reflected joined.
    simpl. rewrite app_nil_r. by split.
  - intros st sends result items groups res _ joined reflected _ _ IH final ->.
    destruct (IH final eq_refl) as [Hfinal Hran]. split; [|done].
    destruct (reflectedState_fields configuration joined result)
      as (_ & _ & _ & Hsq & _).
    fold reflected in Hsq.
    destruct (joinBranches_fields services configuration sends st) as (Hj & _).
    fold joined in Hj. clearbody reflected joined.
    rewrite Hfinal, Hsq, Hj, concat_cons. unfold queriesOf.
    by rewrite fmap_app, app_assoc.
Qed.

(** C10: in either branch webResearch returns the one-element list of
    the dispatched query for searchQuery and a one-element list for
    webResearchResult; arrayAccumulator appends such a list, so a branch
    adds one entry to each field and a group adds its queries, in the
    order in which its branches complete; reflection sets
    numberOfRanQueries to the length of searchQuery, which after the join
    of a group is the length before the group plus the number of its work
    items; and at the end of a finished run searchQuery holds the initial
    entries and the queries of all work items dispatched, and
    numberOfRanQueries is its length. *)
Theorem webResearch_one_entry :
  (∀ state configuration outcome,
     ∃ result,
       u_searchQuery (Nodes.webResearch state configuration outcome)
       = StateReducers.Many [ws_searchQuery state]
       ∧ u_webResearchResult (Nodes.webResearch state configuration outcome)
         = StateReducers.Many [result])
  ∧ (∀ (current : list string) entry,
       StateReducers.arrayAccumulator JS.truthy (Some current)
         (StateReducers.Many [entry])
       = current ++ [entry])
  ∧ (∀ st state configuration outcome,
       let st' :=
         applyUpdate st (Nodes.webResearch state configuration outcome) in
       searchQuery st' = searchQuery st ++ [ws_searchQuery state]
       ∧ length (webResearchResult st') = S (length (webResearchResult st)))
  ∧ (∀ services configuration st sends,
       searchQuery (Graph.joinBranches services configuration st sends)
       ≡ₚ searchQuery st ++ queriesOf sends
       ∧ length (searchQuery
                   (Graph.joinBranches services configuration st sends))
         = (length (searchQuery st) + length sends)%nat)
  ∧ (∀ st configuration result,
       u_numberOfRanQueries (Nodes.reflection st configuration result)
       = Some (Z.of_nat (length (searchQuery st))))
  ∧ (∀ services configuration st sends result,
       numberOfRanQueries
         (reflectedState configuration
            (Graph.joinBranches services configuration st sends) result)
       = Z.of_nat (length (searchQuery st) + length sends))
  ∧ (∀ fuel services configuration initialState groups final,
       Graph.runGraph fuel services configuration initialState
       = (groups, Graph.Finished final) →
       searchQuery final
       ≡ₚ searchQuery initialState ++ queriesOf (concat groups)
       ∧ numberOfRanQueries final
         = Z.of_nat (length (searchQuery initialState)
                     + length (concat groups))).
Proof.
  split; [|split; [|split; [|split; [|split; [|split]]]]].
  - intros state configuration outcome.
    destruct (webResearch_cases state configuration outcome)
      as [[error ->]|(modifiedText & sources & ->)]; by eexists.
  - done.
  - intros st state configuration outcome st'.
    destruct (webResearch_merge st state configuration outcome)
      as (Hq & [result Hr] & _).
    fold st' in Hq, Hr. rewrite Hq, Hr, length_app. simpl. split; [done|lia].
  - intros services configuration st sends.
    by destruct (joinBranches_fields services configuration sends st)
      as (? & ? & _).
  - done.
  - intros services configuration st sends result.
    destruct (reflectedState_fields configuration
                (Graph.joinBranches services configuration st sends) result)
      as (_ & _ & _ & _ & -> & _).
    by destruct (joinBranches_fields services configuration sends st)
      as (_ & -> & _).
  - intros fuel services configuration initialState groups final.
    unfold Graph.runGraph.
    destruct (Graph.queryWriter services initialState) as [error|result];
      [done|].
    set (generated := applyUpdate initialState _). intros Hrun.
    destruct (researchLoop_queries services configuration fuel generated
                (Nodes.continueToWebResearch generated) final) as [Hq Hran].
    { by rewrite Hrun. }
    rewrite Hrun in Hq. simpl in Hq.
    change (searchQuery generated) with (searchQuery initialState) in Hq.
    split; [done|]. rewrite Hran, Hq, length_app. unfold queriesOf.
    by rewrite length_fmap.
Qed.

Lemma webResearch_one_entry_witness :
  searchQuery demoFinal
  ≡ₚ searchQuery demoInitialState ++ queriesOf (concat demoRun.1)
  ∧ numberOfRanQueries demoFinal
    = Z.of_nat (length (searchQuery demoInitialState)
                + length (concat demoRun.1)).
Proof.
  apply (proj2 (proj2 (proj2 (proj2 (proj2 (proj2 webResearch_one_entry)))))
           5%nat demoServices demoConfiguration demoInitialState
           demoRun.1 demoFinal).
  vm_compute. reflexivity.
Defined.

Lemma researchLoop_budget (services : Graph.Services)
    (configuration : Configuration) :
  (∀ s result, Graph.reflector services s = inr result →
               r_isSufficient result = false) →
  ∀ fuel st sends m,
    maxResearchLoops st = Some m → researchLoopCount st < m →
    let run := Graph.researchLoop fuel services configuration st sends in
    Z.of_nat (length run.1) ≤ m - researchLoopCount st
    ∧ ∀ final, run.2 = Graph.Finished final →
        Z.of_nat (length run.1) = m - researchLoopCount st
        ∧ researchLoopCount final = m.
Proof.
  intros Hnever fuel st sends.
  apply (researchLoop_induction services configuration
    (λ st sends groups res,
       ∀ m, maxResearchLoops st = Some m → researchLoopCount st < m →
         Z.of_nat (length groups) ≤ m - researchLoopCount st
         ∧ ∀ final, res = Graph.Finished final →
             Z.of_nat (length groups) = m - researchLoopCount st
             ∧ researchLoopCount final = m)); clear fuel st sends.
  - intros st sends m Hm Hc. simpl. split; [lia|done].
  - intros st m Hm Hc. simpl. split; [lia|done].
  - intros st sends error _ _ m Hm Hc. simpl. split; [lia|done].
  - intros st sends result error _ joined reflected _ _ _ m Hm Hc. simpl.
    split; [lia|done].
  - intros st sends result content _ joined reflected Hr He _ m Hm Hc.
    destruct (joinBranches_fields services configuration sends st)
      as (_ & _ & _ & Hjc & Hjm).
    destruct (reflectedState_fields configuration joined result)
      as (Hrc & Hrm & Hrs & _).
    fold joined in Hjc, Hjm. fold reflected in Hrc, Hrm, Hrs.
    destruct (evaluateResearch_cases reflected configuration)
      as [[_ Hcond]|[He' _]]; [|congruence].
    unfold effectiveMaxLoops in Hcond.
    rewrite Hrm, Hjm, Hm, Hrs, (Hnever _ _ Hr), Hrc, Hjc in Hcond.
    destruct Hcond as [?|Hcond]; [done|].
    simpl. split; [lia|]. intros final [= <-].
    destruct (finalizeAnswer_fields reflected configuration content) as (-> & _).
    rewrite Hrc, Hjc. lia.
  - intros st sends result items groups res _ joined reflected Hr He IH m Hm Hc.
    destruct (joinBranches_fields services configuration sends st)
      as (_ & _ & _ & Hjc & Hjm).
    destruct (reflectedState_fields configuration joined result)
      as (Hrc & Hrm & _).
    fold joined in Hjc, Hjm. fold reflected in Hrc, Hrm.
    destruct (evaluateResearch_cases reflected configuration)
      as [[He' _]|(_ & _ & Hlt)]; [congruence|].
    unfold effectiveMaxLoops in Hlt. rewrite Hrm, Hjm, Hm, Hrc, Hjc in Hlt.
    destruct (IH m) as [Hle Hfin].
    { by rewrite Hrm, Hjm. }
    { rewrite Hrc, Hjc. lia. }
    rewrite Hrc, Hjc in Hle, Hfin. simpl length. split; [lia|].
    intros final Hres. destruct (Hfin final Hres) as [Hlen ->].
    split; [lia|done].
Qed.

Lemma researchLoop_enough_fuel (services : Graph.Services)
    (configuration : Configuration) :
  (∀ s result, Graph.reflector services s = inr result →
               r_isSufficient result = false) →
  ∀ fuel st sends m,
    maxResearchLoops st = Some m → researchLoopCount st < m →
    m - researchLoopCount st ≤ Z.of_nat fuel →
    (Graph.researchLoop fuel services configuration st sends).2
    ≠ Graph.OutOfFuel.
Proof.
  intros Hnever. induction fuel as [|fuel IH]; intros st sends m Hm Hc Hfuel.
  { simpl in Hfuel. lia. }
  cbn [Graph.researchLoop]. destruct sends as [|send sends]; [done|].
  set (all := send :: sends).
  set (joined := Graph.joinBranches services configuration st all).
  destruct (Graph.reflector services joined) as [error|result] eqn:Hr; [done|].
  fold (reflectedState configuration joined result).
  set (reflected := reflectedState configuration joined result).
  destruct (joinBranches_fields services configuration all st)
    as (_ & _ & _ & Hjc & Hjm).
  destruct (reflectedState_fields configuration joined result)
    as (Hrc & Hrm & _).
  fold joined in Hjc, Hjm. fold reflected in Hrc, Hrm.
  destruct (evaluateResearch_cases reflected configuration)
    as [[-> _]|(-> & _ & Hlt)].
  - rewrite decide_True by done.
    by destruct (Graph.answerer services reflected).
  - unfold effectiveMaxLoops in Hlt. rewrite Hrm, Hjm, Hm, Hrc, Hjc in Hlt.
    specialize (IH reflected
      (imap (λ idx followUpQuery,
               {| node := "webResearch";
                  args := {| ws_searchQuery := followUpQuery;
                             ws_id := numberOfRanQueries reflected
                                      + Z.of_nat idx |} |})
            (followUpQueries reflected)) m).
    destruct (Graph.researchLoop fuel services configuration reflected _)
      as [groups res].
    simpl in *. apply IH; [congruence|lia|lia].
Qed.

(** C2: evaluateResearch returns finalizeAnswer exactly when isSufficient
    holds or researchLoopCount has reached the loop limit (that of the
    state, or of the configuration when the state has none); reflection
    adds one to researchLoopCount.  With the limit 2 and a reflection that
    is never satisfied, a state is routed to finalizeAnswer exactly when
    its researchLoopCount is at least 2, hence not at 1; and a run that
    starts at 0 never has more than two fan-out groups, needs no more
    than two turns of the loop to end, and when it finishes it has had
    exactly two groups and researchLoopCount is 2. *)
Theorem evaluateResearch_finalize :
  (∀ st configuration,
     Nodes.evaluateResearch st configuration = NodeName "finalizeAnswer"
     ↔ isSufficient st = true
       ∨ effectiveMaxLoops st configuration ≤ researchLoopCount st)
  ∧ (∀ st configuration result,
       researchLoopCount
         (applyUpdate st (Nodes.reflection st configuration result))
       = researchLoopCount st + 1)
  ∧ (∀ st configuration,
       maxResearchLoops st = Some 2 → isSufficient st = false →
       (Nodes.evaluateResearch st configuration = NodeName "finalizeAnswer"
        ↔ 2 ≤ researchLoopCount st))
  ∧ (∀ fuel services configuration initialState groups res,
       researchLoopCount initialState = 0 →
       maxResearchLoops initialState = Some 2 →
       (∀ s result, Graph.reflector services s = inr result →
                    r_isSufficient result = false) →
       Graph.runGraph fuel services configuration initialState = (groups, res) →
       (length groups ≤ 2)%nat
       ∧ ((2 ≤ fuel)%nat → res ≠ Graph.OutOfFuel)
       ∧ ∀ final, res = Graph.Finished final →
           length groups = 2%nat ∧ researchLoopCount final = 2).
Proof.
  assert (Hiff : ∀ st configuration,
     Nodes.evaluateResearch st configuration = NodeName "finalizeAnswer"
     ↔ isSufficient st = true
       ∨ effectiveMaxLoops st configuration ≤ researchLoopCount st).
  { intros st configuration.
    destruct (evaluateResearch_cases st configuration)
      as [[-> Hc]|(-> & Hs & Hlt)]; [done|].
    split; [done|]. intros [?|?]; [congruence|lia]. }
  split; [exact Hiff|]. split; [|split].
  - intros st configuration result.
    by destruct (reflectedState_fields configuration st result) as [? _].
  - intros st configuration Hm Hs. rewrite Hiff. unfold effectiveMaxLoops.
    rewrite Hm, Hs. split; [intros [?|?]; [done|lia]|by right].
  - intros fuel services configuration initialState groups res Hc Hm Hnever.
    unfold Graph.runGraph.
    destruct (Graph.queryWriter services initialState) as [error|result].
    { intros [= <- <-]. simpl. split; [lia|done]. }
    set (generated := applyUpdate initialState _). intros Hrun.
    assert (Hfuel : (2 ≤ fuel)%nat → res ≠ Graph.OutOfFuel).
    { intros Hge.
      pose proof (researchLoop_enough_fuel services configuration Hnever fuel
                    generated (Nodes.continueToWebResearch generated) 2 Hm)
        as Hres.
      rewrite Hrun in Hres. apply Hres.
      - change (researchLoopCount generated)
          with (researchLoopCount initialState). lia.
      - change (researchLoopCount generated)
          with (researchLoopCount initialState). lia. }
    destruct (researchLoop_budget services configuration Hnever fuel generated
                (Nodes.continueToWebResearch generated) 2) as [Hle Hfin].
    { exact Hm. }
    { change (researchLoopCount generated)
        with (researchLoopCount initialState). lia. }
    rewrite Hrun in Hle, Hfin. simpl in Hle, Hfin.
    change (researchLoopCount generated)
      with (researchLoopCount initialState) in Hle, Hfin.
    rewrite Hc in Hle, Hfin. split; [lia|]. split; [exact Hfuel|].
    intros final ->. destruct (Hfin final eq_refl) as [Hlen Hcount].
    split; [lia|done].
Qed.

Lemma evaluateResearch_finalize_witness :
  length demoRun.1 = 2%nat ∧ researchLoopCount demoFinal = 2.
Proof.
  refine (proj2 (proj2 (proj2 (proj2 (proj2 evaluateResearch_finalize))
                  5%nat demoServices demoConfiguration demoInitialState
                  demoRun.1 demoRun.2 _ _ _ _)) demoFinal _).
  - reflexivity.
  - reflexivity.
  - intros s result [= <-]. reflexivity.
  - unfold demoRun. apply surjective_pairing.
  - vm_compute. reflexivity.
Defined.

(** * Further properties of the code *)

(** ** getResearchTopic *)

Lemma trimStart_clean (s : string) : startsWithWhiteSpace (trimStart s) = false.
Proof.
  induction s as [|c s IH]; simpl; [done|].
  destruct (isWhiteSpace c) eqn:Hc; [exact IH|]. simpl. exact Hc.
Qed.

Lemma trimEnd_clean (s : string) : endsWithWhiteSpace (trimEnd s) = false.
Proof.
  induction s as [|c s IH]; [done|].
  cbn [trimEnd]. destruct (trimEnd s) as [|d t].
  - destruct (isWhiteSpace c) eqn:Hc; [done|]. simpl. exact Hc.
  - exact IH.
Qed.

Lemma trimEnd_starts (s : string) :
  startsWithWhiteSpace s = false → startsWithWhiteSpace (trimEnd s) = false.
Proof.
  destruct s as [|c s]; [done|]. cbn [trimEnd startsWithWhiteSpace].
  intros Hc. destruct (trimEnd s); [by rewrite Hc|exact Hc].
Qed.

Lemma trim_clean (s : string) :
  startsWithWhiteSpace (trim s) = false ∧ endsWithWhiteSpace (trim s) = false.
Proof.
  unfold trim. split; [|apply trimEnd_clean].
  apply trimEnd_starts, trimStart_clean.
Qed.

Lemma getResearchTopic_many (messages : list BaseMessage) :
  (2 ≤ length messages)%nat →
  getResearchTopic messages = trim (foldl topicStep "" messages).
Proof.
  destruct messages as [|m1 [|m2 rest]]; simpl; [lia|lia|done].
Qed.

Lemma topicStep_other (messages : list BaseMessage) :
  Forall (λ m, msg_type m = OtherType) messages →
  ∀ topic, foldl topicStep topic messages = topic.
Proof.
  induction 1 as [|m rest Hm _ IH]; intros topic; simpl; [done|].
  rewrite IH. unfold topicStep. by rewrite Hm.
Qed.

(** getResearchTopic: without messages the topic is empty; a single
    message gives its content as it is, whatever its type; for two or more
    messages the topic neither begins nor ends with white space (the line
    break after the last line is trimmed), and it is empty when none of
    them is a human or an AI message. *)
Theorem getResearchTopic_edges :
  getResearchTopic [] = ""
  ∧ (∀ message, getResearchTopic [message] = msg_content message)
  ∧ (∀ m1 m2 rest,
       startsWithWhiteSpace (getResearchTopic (m1 :: m2 :: rest)) = false
       ∧ endsWithWhiteSpace (getResearchTopic (m1 :: m2 :: rest)) = false)
  ∧ (∀ m1 m2 rest,
       Forall (λ m, msg_type m = OtherType) (m1 :: m2 :: rest) →
       getResearchTopic (m1 :: m2 :: rest) = "").
Proof.
  split; [done|]. split; [done|]. split.
  - intros m1 m2 rest. apply trim_clean.
  - intros m1 m2 rest Hall. rewrite getResearchTopic_many by (simpl; lia).
    by rewrite topicStep_other.
Qed.

(** getResearchTopic: a message that is neither a human nor an AI message
    does not change the topic, as long as two messages remain without
    it. *)
Theorem getResearchTopic_ignores_other
    (before after : list BaseMessage) (message : BaseMessage) :
  msg_type message = OtherType →
  (2 ≤ length (before ++ after))%nat →
  getResearchTopic (before ++ message :: after)
  = getResearchTopic (before ++ after).
Proof.
  intros Hm Hlen.
  rewrite !getResearchTopic_many
    by (rewrite ?length_app in *; simpl; lia).
  rewrite !foldl_app. cbn [foldl]. unfold topicStep at 2. by rewrite Hm.
Qed.

Lemma getResearchTopic_ignores_other_witness :
  getResearchTopic
    ([ {| msg_type := HumanType; msg_content := "What is Rocq?" |} ]
     ++ {| msg_type := OtherType; msg_content := "system note" |}
        :: [ {| msg_type := AIType; msg_content := "A proof assistant." |} ])
  = getResearchTopic
      ([ {| msg_type := HumanType; msg_content := "What is Rocq?" |} ]
       ++ [ {| msg_type := AIType; msg_content := "A proof assistant." |} ]).
Proof.
  apply getResearchTopic_ignores_other; [reflexivity|simpl; lia].
Defined.

(** ** insertCitationMarkers: nothing of the text is lost, and every
       marker stands at its offset of the original text *)

Lemma length_append (a b : string) :
  String.length (a +:+ b) = (String.length a + String.length b)%nat.
Proof. induction a as [|c a IH]; [done|]. rewrite append_cons. simpl. by rewrite IH. Qed.

Lemma append_assoc (a b c : string) : (a +:+ b) +:+ c = a +:+ b +:+ c.
Proof. induction a as [|x a IH]; [done|]. rewrite !append_cons. by rewrite IH. Qed.

Lemma substring_take (s : string) : ∀ k, String.substring 0 k s = takeStr k s.
Proof.
  induction s as [|c s IH]; intros [|k]; simpl; try done. by rewrite IH.
Qed.

Lemma takeStr_all (s : string) : takeStr (String.length s) s = s.
Proof. induction s as [|c s IH]; [done|]. simpl. by rewrite IH. Qed.

Lemma substring_drop (s : string) :
  ∀ k, String.substring k (String.length s - k) s = JS.dropStr k s.
Proof.
  induction s as [|c s IH]; intros [|k]; simpl; try done.
  by rewrite substring_take, takeStr_all.
Qed.

Lemma take_drop (s : string) : ∀ k, takeStr k s +:+ JS.dropStr k s = s.
Proof.
  induction s as [|c s IH]; intros [|k]; try done.
  simpl. by rewrite append_cons, IH.
Qed.

Lemma length_takeStr (s : string) :
  ∀ k, (k ≤ String.length s)%nat → String.length (takeStr k s) = k.
Proof.
  induction s as [|c s IH]; intros [|k]; simpl; try done; [lia|].
  intros Hk. rewrite IH; lia.
Qed.

Lemma takeStr_append (a b : string) :
  ∀ k, (k ≤ String.length a)%nat → takeStr k (a +:+ b) = takeStr k a.
Proof.
  induction a as [|c a IH]; intros [|k]; simpl; try done; [lia|].
  intros Hk. rewrite IH; [done|lia].
Qed.

Lemma dropStr_append_le (a b : string) :
  ∀ k, (k ≤ String.length a)%nat →
       JS.dropStr k (a +:+ b) = JS.dropStr k a +:+ b.
Proof.
  induction a as [|c a IH]; intros [|k]; simpl; try done; [lia|].
  intros Hk. apply IH. lia.
Qed.

Lemma relIndex_le (len : nat) (i : Z) : (JS.relIndex len i ≤ len)%nat.
Proof. unfold JS.relIndex. destruct (i <? 0) eqn:Hi; lia. Qed.

Lemma relIndex_within (len : nat) (i : Z) :
  0 ≤ i ≤ Z.of_nat len → JS.relIndex len i = Z.to_nat i.
Proof.
  intros Hi. unfold JS.relIndex.
  destruct (Z.ltb_spec i 0); [lia|]. by rewrite Z.min_l by lia.
Qed.

(** One splice cuts the text at one place and puts the marker there. *)
Lemma spliceMarker_cut (modifiedText : string) (citationInfo : CitationInfo) :
  let k := JS.relIndex (String.length modifiedText) (endIndex citationInfo) in
  Utils.spliceMarker modifiedText citationInfo
  = takeStr k modifiedText +:+ Utils.markerOf citationInfo
      +:+ JS.dropStr k modifiedText.
Proof.
  intros k. unfold Utils.spliceMarker, JS.slice. fold k.
  replace (JS.relIndex (String.length modifiedText) 0) with 0%nat
    by (unfold JS.relIndex; simpl; lia).
  by rewrite Nat.sub_0_r, substring_take, substring_drop.
Qed.

Lemma length_spliceMarker (modifiedText : string) (citationInfo : CitationInfo) :
  String.length (Utils.spliceMarker modifiedText citationInfo)
  = (String.length modifiedText
     + String.length (Utils.markerOf citationInfo))%nat.
Proof.
  rewrite spliceMarker_cut, !length_append.
  pose proof (f_equal String.length
                (take_drop modifiedText
                   (JS.relIndex (String.length modifiedText)
                      (endIndex citationInfo)))) as Hlen.
  rewrite length_append in Hlen. lia.
Qed.

Lemma length_splices (l : list CitationInfo) :
  ∀ text,
    String.length (foldl Utils.spliceMarker text l)
    = (String.length text
       + sum_list_with (λ c, String.length (Utils.markerOf c)) l)%nat.
Proof.
  induction l as [|c l IH]; intros text; simpl; [lia|].
  rewrite IH, length_spliceMarker. lia.
Qed.

(** insertCitationMarkers never loses or repeats a code unit of the
    text, whatever the offsets are (negative, or beyond the text): the
    result is as long as the text and all marker groups together, and
    without citations it is the text. *)
Theorem insertCitationMarkers_length (text : string)
    (citationsList : list CitationInfo) :
  String.length (Utils.insertCitationMarkers text citationsList)
  = (String.length text
     + sum_list_with (λ c, String.length (Utils.markerOf c)) citationsList)%nat
  ∧ Utils.insertCitationMarkers text [] = text.
Proof.
  split; [|done]. unfold Utils.insertCitationMarkers.
  rewrite length_splices. f_equal.
  apply sum_list_with_Permutation_proper, stableSort_perm.
Qed.

Lemma spliceMarker_append (a b : string) (c : CitationInfo) :
  0 ≤ endIndex c ≤ Z.of_nat (String.length a) →
  Utils.spliceMarker (a +:+ b) c = Utils.spliceMarker a c +:+ b.
Proof.
  intros Hc. rewrite !spliceMarker_cut. cbn zeta.
  rewrite !relIndex_within by (rewrite ?length_append; lia).
  rewrite takeStr_append, dropStr_append_le by lia.
  by rewrite !append_assoc.
Qed.

Lemma splices_append (l : list CitationInfo) :
  ∀ a b,
    (∀ c, c ∈ l → 0 ≤ endIndex c ≤ Z.of_nat (String.length a)) →
    foldl Utils.spliceMarker (a +:+ b) l = foldl Utils.spliceMarker a l +:+ b.
Proof.
  induction l as [|c l IH]; intros a b Hl; simpl; [done|].
  rewrite spliceMarker_append by (apply Hl; left).
  apply IH. intros c' Hc'. rewrite length_spliceMarker.
  specialize (Hl c' (list_elem_of_further _ _ _ Hc')). lia.
Qed.

Lemma splices_marked (sorted : list CitationInfo) :
  StronglySorted descendingOffsets sorted →
  ∀ text, offsetsWithin text sorted →
    foldl Utils.spliceMarker text sorted = markedText text sorted.
Proof.
  induction 1 as [|c rest Hrest IH Hc]; intros text Hin; simpl; [done|].
  assert (Hce : 0 ≤ endIndex c ≤ Z.of_nat (String.length text))
    by (apply Hin; left).
  rewrite spliceMarker_cut. cbn zeta. rewrite relIndex_within by done.
  assert (Hlen : String.length (takeStr (Z.to_nat (endIndex c)) text)
                 = Z.to_nat (endIndex c)) by (apply length_takeStr; lia).
  assert (Hbelow : offsetsWithin (takeStr (Z.to_nat (endIndex c)) text) rest).
  { intros c' Hc'. rewrite Hlen. rewrite Forall_forall in Hc.
    specialize (Hc c' Hc'). unfold descendingOffsets in Hc.
    specialize (Hin c' (list_elem_of_further _ _ _ Hc')). lia. }
  rewrite splices_append by exact Hbelow.
  by rewrite IH.
Qed.

(** insertCitationMarkers, for end offsets within the text: because the
    segments are spliced from the largest end offset down, every marker
    group stands directly after the first endIndex code units of the
    original text and before the rest of it; no later splice moves it. *)
Theorem insertCitationMarkers_positions (text : string)
    (citationsList : list CitationInfo) :
  offsetsWithin text citationsList →
  Utils.insertCitationMarkers text citationsList
  = markedText text (Utils.stableSort Utils.compareCitations citationsList).
Proof.
  intros Hin. unfold Utils.insertCitationMarkers.
  apply splices_marked; [apply sortedCitations_descending|].
  intros c Hc. apply Hin. by rewrite stableSort_perm in Hc.
Qed.

Lemma insertCitationMarkers_positions_witness :
  Utils.insertCitationMarkers "The sky is blue."
    [ {| startIndex := 0; endIndex := 7; segments := [nasa] |};
      {| startIndex := 8; endIndex := 16; segments := [nasa] |} ]
  = markedText "The sky is blue."
      (Utils.stableSort Utils.compareCitations
         [ {| startIndex := 0; endIndex := 7; segments := [nasa] |};
           {| startIndex := 8; endIndex := 16; segments := [nasa] |} ]).
Proof.
  apply insertCitationMarkers_positions.
  intros c Hc.
  repeat (apply elem_of_cons in Hc as [->|Hc]); [simpl; lia..|].
  by apply elem_of_nil in Hc.
Defined.

(** ** getCitations: what every citation it returns satisfies *)

Lemma orElse_nonempty (a b : string) : b ≠ "" → JS.orElse a b ≠ "".
Proof.
  intros Hb. unfold JS.orElse. destruct (JS.truthy a) eqn:Ha; [|done].
  by apply truthy_nonempty.
Qed.

Lemma labelOf_nonempty (title : option string) : Utils.labelOf title ≠ "".
Proof. destruct title; [|done]. by apply orElse_nonempty. Qed.

Lemma length_omap_le {A B} (f : A → option B) (l : list A) :
  (length (omap f l) ≤ length l)%nat.
Proof.
  induction l as [|x l IH]; csimpl; [done|]. destruct (f x); csimpl; lia.
Qed.

Lemma citation_sources (chunks : option (list GroundingChunk))
    (m : gmap string string) (support : GroundingSupport) (c : CitationInfo)
    (s : SourceInfo) :
  Utils.citationOf chunks m support = Some c → s ∈ segments c →
  ∃ ind, resolvesTo chunks m ind s.
Proof.
  intros Hc Hs. apply citationOf_Some in Hc as (seg & e & _ & _ & -> & _).
  simpl in Hs. apply list_elem_of_omap in Hs as (ind & _ & Hind).
  exists ind. by apply sourceOf_resolvesTo.
Qed.

Lemma memberText_nonempty (key : string) : JS.memberText key ≠ "".
Proof. unfold JS.memberText. by repeat case_decide. Qed.

Lemma shortUrlFor_nonempty (m : gmap string string) (u r : string) :
  shortUrlFor m u r → r ≠ "".
Proof. intros [[_ ?]|(_ & _ & ->)]; [done|apply memberText_nonempty]. Qed.

Lemma chunkAt_lookup (response : GoogleAIResponse) (ind : Z)
    (chunk : GroundingChunk) :
  Utils.chunkAt (chunksOf response) ind = Some chunk →
  chunk ∈ Nodes.groundingChunksOf response.
Proof.
  unfold Utils.chunkAt, chunksOf, metadataOf, Nodes.groundingChunksOf.
  destruct (candidates response) as [[|candidate ?]|]; [done| |done].
  destruct (groundingMetadata candidate) as [metadata|]; [|done].
  destruct (groundingChuncks metadata) as [chunks|]; [|done].
  destruct (ind <? 0); [done|]. apply list_elem_of_lookup_2.
Qed.

Lemma chunkAt_url (response : GoogleAIResponse) (ind : Z)
    (chunk : GroundingChunk) (w : Web) (u : string) :
  Utils.chunkAt (chunksOf response) ind = Some chunk →
  web chunk = Some w → uri w = Some u →
  u ∈ responseUrls response.
Proof.
  intros Hchunk Hw Hu. apply list_elem_of_fmap. exists chunk.
  split; [|by eapply chunkAt_lookup].
  unfold Utils.chunkUrl. by rewrite Hw, Hu.
Qed.

(** getCitations: there are at most as many citations as support
    entries; every citation takes its end offset from a support entry and
    has at least one source; every source has a non-empty label, a
    non-empty URL and a non-empty short URL: the identifier the map holds
    for that URL, or, for a URL the map does not hold and that names a
    member of Object.prototype, the inherited member.  With an empty map
    every source is of the second kind, so there is no citation unless
    a chunk URL names such a member; the URL "constructor" is cited through
    the empty map. *)
Theorem getCitations_invariants (response : GoogleAIResponse)
    (resolvedUrlsMap : gmap string string) :
  (length (Utils.getCitations response resolvedUrlsMap)
   ≤ length (supportsOf response))%nat
  ∧ (∀ c, c ∈ Utils.getCitations response resolvedUrlsMap →
       (∃ support seg,
          support ∈ supportsOf response ∧ segment support = Some seg
          ∧ seg_endIndex seg = Some (endIndex c))
       ∧ segments c ≠ []
       ∧ ∀ s, s ∈ segments c →
           label s ≠ "" ∧ value s ≠ "" ∧ shortUrl s ≠ ""
           ∧ value s ∈ responseUrls response
           ∧ shortUrlFor resolvedUrlsMap (value s) (shortUrl s))
  ∧ (∀ c s, c ∈ Utils.getCitations response ∅ → s ∈ segments c →
       JS.inherited (value s) = true
       ∧ shortUrl s = JS.memberText (value s))
  ∧ ((∀ u, u ∈ responseUrls response → JS.inherited u = false) →
     Utils.getCitations response ∅ = [])
  ∧ Utils.getCitations constructorResponse ∅
    = [ {| startIndex := 0; endIndex := 5;
           segments :=
             [ {| label := "page";
                  shortUrl := "function Object() { [native code] }";
                  value := "constructor" |} ] |} ].
Proof.
  assert (Hall : ∀ m c, c ∈ Utils.getCitations response m →
       (∃ support seg,
          support ∈ supportsOf response ∧ segment support = Some seg
          ∧ seg_endIndex seg = Some (endIndex c))
       ∧ segments c ≠ []
       ∧ ∀ s, s ∈ segments c →
           label s ≠ "" ∧ value s ≠ "" ∧ shortUrl s ≠ ""
           ∧ value s ∈ responseUrls response
           ∧ shortUrlFor m (value s) (shortUrl s)).
  { intros m c. rewrite getCitations_omap.
    intros Hc. apply list_elem_of_omap in Hc as (support & Hsup & Hc).
    split; [|split].
    - apply citationOf_Some in Hc as (seg & e & Hseg & He & -> & _).
      by exists support, seg.
    - by apply citationOf_Some in Hc as (seg & e & _ & _ & _ & Hne).
    - intros s Hs.
      destruct (citation_sources _ _ _ _ _ Hc Hs)
        as (ind & chunk & w & u & r & Hchunk & Hw & Hu & Hne & Hr & ->).
      simpl. split; [apply labelOf_nonempty|]. split; [done|].
      split; [by eapply shortUrlFor_nonempty|].
      split; [by eapply chunkAt_url|done]. }
  assert (Hempty : ∀ c s, c ∈ Utils.getCitations response ∅ → s ∈ segments c →
            JS.inherited (value s) = true
            ∧ shortUrl s = JS.memberText (value s)).
  { intros c s Hc Hs. destruct (Hall ∅ c Hc) as (_ & _ & Hsrc).
    destruct (Hsrc s Hs) as (_ & _ & _ & _ & [[Hl _]|(_ & ? & ?)]); [|done].
    by rewrite lookup_empty in Hl. }
  split; [rewrite getCitations_omap; apply length_omap_le|].
  split; [apply Hall|]. split; [exact Hempty|]. split; [|by vm_compute].
  intros Hnone.
  destruct (Utils.getCitations response ∅) as [|c l] eqn:Hc; [done|].
  destruct (Hall ∅ c) as (_ & Hne & Hsrc); [rewrite Hc; left|].
  destruct (segments c) as [|s ss] eqn:Hsegs; [done|].
  destruct (Hsrc s) as (_ & _ & _ & Hin & _); [left|].
  destruct (Hempty c s) as [Hinh _]; [left|rewrite Hsegs; left|].
  by rewrite (Hnone _ Hin) in Hinh.
Qed.

(** ** resolveUrls and getCitations together, as webResearch calls them *)

(** Every chunk of the response with a non-empty URL resolves through
    the map built from the chunks of the response: to the identifier of
    its first occurrence, or, when the URL names a member of
    Object.prototype, to that member. *)
Lemma response_chunk_resolves (response : GoogleAIResponse) (id ind : Z)
    (chunk : GroundingChunk) (w : Web) (u : string) :
  Utils.chunkAt (chunksOf response) ind = Some chunk →
  web chunk = Some w → uri w = Some u → u ≠ "" →
  ∃ r, sourceOf (chunksOf response)
         (Utils.resolveUrls (Nodes.groundingChunksOf response) id) ind
       = Some {| label := Utils.labelOf (title w); shortUrl := r; value := u |}.
Proof.
  intros Hchunk Hw Hu Hne.
  pose proof (chunkAt_url response ind chunk w u Hchunk Hw Hu) as Hin.
  destruct (JS.inherited u) eqn:Hinh.
  - exists (JS.memberText u). apply sourceOf_resolvesTo.
    exists chunk, w, u, (JS.memberText u). repeat split; try done.
    right. split; [|done]. rewrite resolveUrls_lookup.
    by rewrite Hinh, andb_false_r.
  - destruct (firstIndexOf_elem u _ Hin) as [i Hi].
    exists (Utils.shortId id i). apply sourceOf_resolvesTo.
    exists chunk, w, u, (Utils.shortId id i). repeat split; try done.
    left. split; [|done]. rewrite resolveUrls_lookup.
    apply truthy_nonempty in Hne as ->. rewrite Hinh. simpl.
    fold (responseUrls response). by rewrite Hi.
Qed.

(** webResearch, when the search call and the reading of the text
    return: the research result is the text with the markers of the
    citations, the gathered sources are the sources of the citations in
    order, and every one of them has a non-empty URL that occurs among the
    chunks of the response.  Its short URL is the identifier formed from
    the identifier of the work item and the index of the first chunk with
    that URL, unless the URL names a member of Object.prototype: resolveUrls
    mints no identifier for such a URL and getCitations reads the inherited
    member as the short URL.  No chunk with a URL fails to resolve: a
    support entry with an end offset and an index of such a chunk always
    gets a citation. *)
Theorem webResearch_sources (state : WebSearchState)
    (configuration : Configuration) (response : GoogleAIResponse)
    (responseText : string) :
  text response = inr responseText →
  let resolvedUrls :=
    Utils.resolveUrls (Nodes.groundingChunksOf response) (ws_id state) in
  let citations := Utils.getCitations response resolvedUrls in
  u_webResearchResult (Nodes.webResearch state configuration (inr response))
  = StateReducers.Many [Utils.insertCitationMarkers responseText citations]
  ∧ u_sourcesGathered (Nodes.webResearch state configuration (inr response))
    = StateReducers.Many (citations ≫= segments)
  ∧ (∀ s, s ∈ citations ≫= segments →
       value s ≠ "" ∧ value s ∈ responseUrls response
       ∧ (JS.inherited (value s) = false →
          ∃ i, firstIndexOf (value s) (responseUrls response) = Some i
               ∧ shortUrl s = Utils.shortId (ws_id state) i)
       ∧ (JS.inherited (value s) = true →
          shortUrl s = JS.memberText (value s)))
  ∧ (∀ support seg e inds ind chunk w u,
       support ∈ supportsOf response →
       segment support = Some seg → seg_endIndex seg = Some e →
       groundingChunkIndices support = Some inds → ind ∈ inds →
       Utils.chunkAt (chunksOf response) ind = Some chunk →
       web chunk = Some w → uri w = Some u → u ≠ "" →
       ∃ c, c ∈ citations ∧ endIndex c = e
            ∧ startIndex c = default 0 (seg_startIndex seg))
  ∧ u_sourcesGathered
      (Nodes.webResearch state configuration (inr constructorResponse))
    = StateReducers.Many
        [ {| label := "page";
             shortUrl := "function Object() { [native code] }";
             value := "constructor" |} ].
Proof.
  intros Htext resolvedUrls citations.
  split; [simpl; by rewrite Htext|]. split; [simpl; by rewrite Htext|].
  split; [|split; [|by vm_compute]].
  - intros s Hs. apply list_elem_of_bind in Hs as (c & Hs & Hc).
    unfold citations in Hc. rewrite getCitations_omap in Hc.
    apply list_elem_of_omap in Hc as (support & _ & Hc).
    destruct (citation_sources _ _ _ _ _ Hc Hs)
      as (ind & chunk & w & u & r & Hchunk & Hw & Hu & Hne & Hr & ->).
    simpl. split; [done|]. split; [by eapply chunkAt_url|].
    unfold resolvedUrls in Hr. unfold shortUrlFor in Hr.
    rewrite resolveUrls_lookup in Hr.
    apply truthy_nonempty in Hne. rewrite Hne in Hr.
    destruct (JS.inherited u) eqn:Hinh; simpl in Hr.
    + split; [done|]. intros _. by destruct Hr as [[? _]|(_ & _ & ->)].
    + split; [|done]. intros _. destruct Hr as [[Hr _]|(_ & ? & _)]; [|done].
      apply fmap_Some in Hr as (i & Hi & ->). by exists i.
  - intros support seg e inds ind chunk w u Hsup Hseg He Hinds Hind
      Hchunk Hw Hu Hne.
    destruct (response_chunk_resolves response (ws_id state) ind chunk w u
                Hchunk Hw Hu Hne) as (r & Hsrc).
    fold resolvedUrls in Hsrc.
    exists {| startIndex := default 0 (seg_startIndex seg); endIndex := e;
              segments := omap (sourceOf (chunksOf response) resolvedUrls)
                            inds |}.
    split; [|split; reflexivity].
    unfold citations. rewrite getCitations_omap. apply list_elem_of_omap.
    exists support. split; [done|]. apply citationOf_Some.
    exists seg, e. split; [done|]. split; [done|].
    rewrite Hinds. split; [reflexivity|].
    simpl. intros Hnil.
    assert (Hin : {| label := Utils.labelOf (title w);
                     shortUrl := r; value := u |}
                  ∈ omap (sourceOf (chunksOf response) resolvedUrls) inds).
    { apply list_elem_of_omap. by exists ind. }
    rewrite Hnil in Hin. by apply elem_of_nil in Hin.
Qed.

Lemma webResearch_sources_witness :
  let state := {| ws_searchQuery := "q"; ws_id := 4 |} in
  u_sourcesGathered
    (Nodes.webResearch state demoConfiguration (inr responseNoStart))
  = StateReducers.Many
      (Utils.getCitations responseNoStart
         (Utils.resolveUrls (Nodes.groundingChunksOf responseNoStart) 4)
       ≫= segments).
Proof.
  intros state.
  exact (proj1 (proj2 (webResearch_sources state demoConfiguration
                         responseNoStart "Hello world." eq_refl))).
Defined.

(** ** Short identifiers across work items *)

Lemma pretty_N_go_dashFree (x : N) :
  ∀ s, dashFree s = true → dashFree (pretty_N_go x s) = true.
Proof.
  induction (N.lt_wf_0 x) as [x _ IH]; intros s Hs.
  assert (x = 0 ∨ 0 < x)%N as [->|?] by lia.
  - by rewrite pretty_N_go_0.
  - rewrite pretty_N_go_step by done. apply IH.
    { by apply N.div_lt. }
    simpl. rewrite Hs, andb_true_r.
    unfold pretty_N_char. by repeat case_match.
Qed.

Lemma pretty_nat_dashFree (i : nat) : dashFree (pretty i) = true.
Proof.
  unfold pretty, pretty_nat, pretty, pretty_N.
  case_decide; [done|]. by apply pretty_N_go_dashFree.
Qed.

Lemma dashFree_no_dash (a x : string) :
  dashFree (a +:+ String "-" x) = false.
Proof.
  induction a as [|c a IH]; [done|].
  rewrite append_cons. simpl. rewrite IH. apply andb_false_r.
Qed.

Lemma last_dash_split (a : string) :
  ∀ b x y,
    dashFree x = true → dashFree y = true →
    a +:+ "-" +:+ x = b +:+ "-" +:+ y → a = b ∧ x = y.
Proof.
  intros b x y.
  change ("-" +:+ x) with (String "-" x).
  change ("-" +:+ y) with (String "-" y).
  revert b. induction a as [|c a IH]; intros [|d b] Hx Hy Heq;
    rewrite ?append_empty_l, ?append_cons in Heq.
  - by injection Heq as ->.
  - injection Heq as <- ->. by rewrite dashFree_no_dash in Hx.
  - injection Heq as -> <-. by rewrite dashFree_no_dash in Hy.
  - injection Heq as -> Heq.
    destruct (IH b Hx Hy Heq) as [-> ->]. done.
Qed.

Lemma shortId_inj_both (id id' : Z) (i i' : nat) :
  Utils.shortId id i = Utils.shortId id' i' → id = id' ∧ i = i'.
Proof.
  unfold Utils.shortId. intros H.
  apply (inj (String.app Utils.prefix)) in H.
  apply last_dash_split in H as [Hid Hi]; try apply pretty_nat_dashFree.
  split; [by apply (inj pretty) in Hid|by apply (inj pretty) in Hi].
Qed.

(** resolveUrls: a short identifier tells the work item and the index it
    was minted for.  Two work items with different identifiers never mint
    the same short identifier, whatever their chunks are; within one work
    item an identifier belongs to one URL. *)
Theorem shortId_unique_across_batches
    (chunks chunks' : list GroundingChunk) (id id' : Z) (u u' s : string) :
  Utils.resolveUrls chunks id !! u = Some s →
  Utils.resolveUrls chunks' id' !! u' = Some s →
  id = id'
  ∧ firstIndexOf u (Utils.chunkUrl <$> chunks)
    = firstIndexOf u' (Utils.chunkUrl <$> chunks').
Proof.
  rewrite !resolveUrls_lookup.
  destruct (JS.truthy u && _); [|done]. destruct (JS.truthy u' && _); [|done].
  intros H H'. apply fmap_Some in H as (i & Hi & ->).
  apply fmap_Some in H' as (i' & Hi' & Heq).
  apply shortId_inj_both in Heq as [-> ->]. split; [done|congruence].
Qed.

Lemma shortId_unique_across_batches_witness :
  3 = 3
  ∧ firstIndexOf "http://b.example/" (Utils.chunkUrl <$> repeatedChunks)
    = firstIndexOf "http://site1.example/" (Utils.chunkUrl <$> elevenChunks).
Proof.
  apply (shortId_unique_across_batches repeatedChunks elevenChunks 3 3
           "http://b.example/" "http://site1.example/" (Utils.shortId 3 1));
    vm_compute; reflexivity.
Defined.

(** ** The reducers over a sequence of updates *)

Lemma accumulate_contributions {T} (truthyT : T → bool)
    (updates : list (StateReducers.Update T)) :
  ∀ current,
    accumulate truthyT current updates
    = current ++ concat (contribution truthyT <$> updates).
Proof.
  unfold accumulate.
  induction updates as [|u updates IH]; intros current; simpl.
  { by rewrite app_nil_r. }
  rewrite IH, app_assoc. f_equal.
  destruct u as [|x|xs]; simpl; [by rewrite app_nil_r| |done].
  destruct (truthyT x); simpl; [done|by rewrite app_nil_r].
Qed.

(** arrayAccumulator: a sequence of updates adds the entries of every
    update behind the current ones, which are never removed or reordered;
    merging the same updates in another order gives the same entries up to
    their order.  An undefined update adds nothing, and neither does a
    single falsy value such as the empty string, although the one-element
    array of that value adds it. *)
Theorem arrayAccumulator_any_order {T} (truthyT : T → bool) (current : list T)
    (updates updates' : list (StateReducers.Update T)) :
  updates ≡ₚ updates' →
  accumulate truthyT current updates
  = current ++ concat (contribution truthyT <$> updates)
  ∧ accumulate truthyT current updates ≡ₚ accumulate truthyT current updates'
  ∧ current `prefix_of` accumulate truthyT current updates
  ∧ StateReducers.arrayAccumulator truthyT None StateReducers.Undefined = []
  ∧ StateReducers.arrayAccumulator JS.truthy (Some ["a"])
      (StateReducers.Single "") = ["a"]
  ∧ StateReducers.arrayAccumulator JS.truthy (Some ["a"])
      (StateReducers.Many [""]) = ["a"; ""].
Proof.
  intros Hperm. rewrite !accumulate_contributions.
  split; [done|]. split; [by rewrite Hperm|].
  split; [by eexists|]. done.
Qed.

Lemma arrayAccumulator_any_order_witness :
  accumulate JS.truthy ["q0"]
    [StateReducers.Many ["q1"]; StateReducers.Undefined;
     StateReducers.Many ["q2"; "q3"]]
  ≡ₚ accumulate JS.truthy ["q0"]
       [StateReducers.Many ["q2"; "q3"]; StateReducers.Many ["q1"];
        StateReducers.Undefined].
Proof.
  refine (proj1 (proj2 (arrayAccumulator_any_order JS.truthy ["q0"] _ _ _))).
  symmetry. apply (Permutation_cons_append [_; _]).
Defined.

Lemma overwrite_snoc {T} (updates : list (option T)) (u : option T) :
  ∀ current,
    overwrite current (updates ++ [u])
    = StateReducers.simpleValue (overwrite current updates) u.
Proof. intros current. unfold overwrite. by rewrite foldl_app. Qed.

(** simpleValue: over a sequence of updates the last defined update
    wins; undefined updates change nothing, so a field that no update
    defines keeps its value. *)
Theorem simpleValue_last_wins {T} (current : T) (updates : list (option T)) :
  overwrite current updates = default current (last (omap id updates))
  ∧ (∀ value later,
       Forall (λ u, u = None) later →
       overwrite current (updates ++ Some value :: later) = value)
  ∧ (Forall (λ u, u = None) updates → overwrite current updates = current).
Proof.
  assert (Hlast : ∀ us : list (option T),
            overwrite current us = default current (last (omap id us))).
  { induction us as [|u us IH] using rev_ind; [done|].
    rewrite overwrite_snoc, IH, omap_app. destruct u as [v|]; simpl.
    - by rewrite last_snoc.
    - by rewrite app_nil_r. }
  assert (Hnone : ∀ us : list (option T),
            Forall (λ u, u = None) us → omap id us = []).
  { induction 1 as [|u us -> _ IH]; [done|]. exact IH. }
  split; [apply Hlast|]. split.
  - intros value later Hlater. rewrite Hlast, omap_app. csimpl.
    rewrite (Hnone later Hlater). by rewrite last_snoc.
  - intros Hall. by rewrite Hlast, (Hnone updates Hall).
Qed.

(** ** formatSources and repeated sources *)

Lemma keepUnseen_all_seen (l : list SourceInfo) :
  ∀ (acc : list SourceInfo) (seen : gset string),
    (∀ s, s ∈ l → value s ∈ seen) →
    foldl Utils.keepUnseen (acc, seen) l = (acc, seen).
Proof.
  induction l as [|s l IH]; intros acc seen Hall; simpl; [done|].
  rewrite decide_True by (apply Hall; left).
  apply IH. intros x Hx. apply Hall. by right.
Qed.

Lemma keepUnseen_seen (l : list SourceInfo) :
  ∀ (acc : list SourceInfo) (seen : gset string) v,
    v ∈ (foldl Utils.keepUnseen (acc, seen) l).2
    ↔ v ∈ seen ∨ v ∈ value <$> l.
Proof.
  induction l as [|s l IH]; intros acc seen v; simpl.
  { rewrite elem_of_nil. tauto. }
  destruct (decide (value s ∈ seen)) as [Hin|Hnin];
    rewrite IH, elem_of_cons.
  - split; [tauto|]. intros [?|[->|?]]; tauto.
  - rewrite elem_of_union, elem_of_singleton. tauto.
Qed.

Lemma keepUnseen_distinct (l : list SourceInfo) :
  ∀ (acc : list SourceInfo) (seen : gset string),
    NoDup (value <$> l) → (∀ s, s ∈ l → value s ∉ seen) →
    (foldl Utils.keepUnseen (acc, seen) l).1 = acc ++ l.
Proof.
  induction l as [|s l IH]; intros acc seen Hnd Hfresh; simpl.
  { by rewrite app_nil_r. }
  rewrite decide_False by (apply Hfresh; left).
  apply NoDup_cons in Hnd as [Hs Hnd].
  rewrite IH, <- app_assoc; [done|done|].
  intros x Hx. rewrite elem_of_union, elem_of_singleton.
  intros [Heq|Hseen].
  - apply Hs. rewrite <- Heq. by apply list_elem_of_fmap_2.
  - by apply (Hfresh x (list_elem_of_further _ _ _ Hx)).
Qed.

Lemma uniqueByValue_distinct (l : list SourceInfo) :
  NoDup (value <$> l) → Utils.uniqueByValue l = l.
Proof.
  intros Hnd. unfold Utils.uniqueByValue.
  rewrite keepUnseen_distinct; [done|done|]. intros s _. set_solver.
Qed.

Lemma uniqueByValue_repeat (l l' : list SourceInfo) :
  (∀ s, s ∈ l' → value s ∈ value <$> l) →
  Utils.uniqueByValue (l ++ l') = Utils.uniqueByValue l.
Proof.
  intros Hsub. unfold Utils.uniqueByValue. rewrite foldl_app.
  destruct (foldl Utils.keepUnseen ([], ∅) l) as [acc seen] eqn:Hl.
  rewrite keepUnseen_all_seen; [done|].
  intros s Hs. pose proof (keepUnseen_seen l [] ∅ (value s)) as Hseen.
  rewrite Hl in Hseen. apply Hseen. right. by apply Hsub.
Qed.

(** formatSources: listing a source again, or another source with a URL
    already listed, adds no line; the lines are those of the list without
    repetitions, and a list of sources with distinct URLs is kept whole. *)
Theorem formatSources_repeat (sources again : list SourceInfo) :
  (∀ s, s ∈ again → value s ∈ value <$> sources) →
  Utils.formatSources (sources ++ again) = Utils.formatSources sources
  ∧ Utils.formatSources (Utils.uniqueByValue sources)
    = Utils.formatSources sources
  ∧ (NoDup (value <$> sources) → Utils.uniqueByValue sources = sources).
Proof.
  intros Hsub. split; [|split; [|apply uniqueByValue_distinct]].
  - unfold Utils.formatSources. rewrite uniqueByValue_repeat by done.
    destruct sources as [|s sources]; [|done].
    destruct again as [|a again]; [done|].
    specialize (Hsub a (list_elem_of_here _ _)). by apply elem_of_nil in Hsub.
  - assert (Hidem : Utils.uniqueByValue (Utils.uniqueByValue sources)
                    = Utils.uniqueByValue sources).
    { apply uniqueByValue_distinct.
      by destruct (uniqueByValue_firstOfEach sources) as [? _]. }
    unfold Utils.formatSources. rewrite Hidem.
    destruct sources as [|s sources]; [done|].
    destruct (Utils.uniqueByValue (s :: sources)) as [|u us] eqn:Hu; [|done].
    destruct (uniqueByValue_firstOfEach (s :: sources)) as (_ & _ & Hval & _).
    rewrite Hu in Hval. specialize (Hval (value s)). simpl in Hval.
    rewrite elem_of_nil, elem_of_cons in Hval. tauto.
Qed.

Lemma formatSources_repeat_witness :
  Utils.formatSources (gatheredThree ++ gatheredThree)
  = Utils.formatSources gatheredThree.
Proof.
  apply (formatSources_repeat gatheredThree gatheredThree).
  intros s Hs. by apply list_elem_of_fmap_2.
Defined.

(** ** The configuration: environment, request and defaults *)

Lemma digitOf_pretty_char (d : N) :
  (d < 10)%N → Config.digitOf (pretty_N_char d) = Some (Z.of_N d).
Proof.
  intros Hd.
  assert (d = 0 ∨ d = 1 ∨ d = 2 ∨ d = 3 ∨ d = 4 ∨ d = 5 ∨ d = 6 ∨ d = 7
          ∨ d = 8 ∨ d = 9)%N as Hcases by lia.
  destruct_or!; subst d; reflexivity.
Qed.

Lemma isDecimalDigit_pretty_char (d : N) :
  (d < 10)%N → isDecimalDigit (pretty_N_char d) = true.
Proof.
  intros Hd. unfold isDecimalDigit. rewrite digitOf_pretty_char by done.
  apply Z.ltb_lt. lia.
Qed.

Lemma decimal_char (c : ascii) :
  isDecimalDigit c = true →
  isWhiteSpace c = false ∧ c ≠ "-"%char ∧ c ≠ "+"%char ∧ c ≠ "x"%char
  ∧ c ≠ "X"%char.
Proof.
  destruct c as [[] [] [] [] [] [] [] []]; vm_compute; intros H;
    try discriminate H; repeat split; discriminate.
Qed.

Lemma decimalDigits_pretty_go (x : N) :
  ∀ s, decimalDigits s = true → decimalDigits (pretty_N_go x s) = true.
Proof.
  induction (N.lt_wf_0 x) as [x _ IH]; intros s Hs.
  assert (x = 0 ∨ 0 < x)%N as [->|?] by lia.
  - by rewrite pretty_N_go_0.
  - rewrite pretty_N_go_step by done. apply IH.
    { by apply N.div_lt. }
    cbn [decimalDigits]. rewrite Hs, andb_true_r.
    apply isDecimalDigit_pretty_char. by apply N.mod_lt.
Qed.

Lemma pretty_N_go_nonempty (x : N) :
  ∀ s, (0 < x)%N → ∃ c s', pretty_N_go x s = String c s'.
Proof.
  induction (N.lt_wf_0 x) as [x _ IH]; intros s Hx.
  rewrite pretty_N_go_step by done.
  destruct (N.eq_0_gt_0_cases (x `div` 10)) as [->|Hdiv].
  - rewrite pretty_N_go_0. by do 2 eexists.
  - apply IH; [by apply N.div_lt|done].
Qed.

Lemma digitsValue_pretty_go (x : N) :
  (0 < x)%N →
  ∃ k, ∀ acc s,
    Config.digitsValue 10 acc (pretty_N_go x s)
    = Config.digitsValue 10 (Some (default 0 acc * k + Z.of_N x)) s.
Proof.
  induction (N.lt_wf_0 x) as [x _ IH]; intros Hx.
  assert (Hstep : ∀ acc s,
            Config.digitsValue 10 acc (String (pretty_N_char (x `mod` 10)) s)
            = Config.digitsValue 10
                (Some (default 0 acc * 10 + Z.of_N (x `mod` 10))) s).
  { intros acc s. cbn [Config.digitsValue].
    rewrite digitOf_pretty_char by (by apply N.mod_lt).
    assert ((Z.of_N (x `mod` 10) <? 10) = true) as ->; [|done].
    apply Z.ltb_lt. pose proof (N.mod_lt x 10). lia. }
  assert (Hx10 : Z.of_N x
                 = Z.of_N (x `div` 10) * 10 + Z.of_N (x `mod` 10)).
  { rewrite (N.div_mod x 10) at 1 by done. lia. }
  destruct (N.eq_0_gt_0_cases (x `div` 10)) as [Hdiv|Hdiv].
  - exists 10. intros acc s. rewrite pretty_N_go_step by done.
    rewrite Hdiv, pretty_N_go_0, Hstep. do 2 f_equal.
    rewrite Hx10, Hdiv. lia.
  - destruct (IH (x `div` 10)%N) as [k Hk]; [by apply N.div_lt|done|].
    exists (k * 10). intros acc s. rewrite pretty_N_go_step by done.
    rewrite Hk, Hstep. simpl. do 2 f_equal. rewrite Hx10. lia.
Qed.

Lemma decimal_not_hex (s : string) :
  decimalDigits s = true →
  String.prefix "0x" s || String.prefix "0X" s = false.
Proof.
  destruct s as [|c [|c' s]]; [done| |].
  { intros _. cbn [String.prefix]. by destruct (ascii_dec "0" c). }
  cbn [decimalDigits]. intros H.
  apply andb_true_iff in H as [_ H]. apply andb_true_iff in H as [H _].
  destruct (decimal_char c' H) as (_ & _ & _ & Hx & HX).
  cbn [String.prefix]. destruct (ascii_dec "0" c); [|done].
  destruct (ascii_dec "x" c'); [congruence|].
  by destruct (ascii_dec "X" c').
Qed.

Lemma parseInt_unsigned (x : N) :
  (0 < x)%N →
  Config.parseInt (pretty_N_go x "") = Config.toDouble (Z.of_N x).
Proof.
  intros Hx.
  pose proof (decimalDigits_pretty_go x "" eq_refl) as Hdec.
  destruct (digitsValue_pretty_go x Hx) as [k Hk].
  specialize (Hk None ""). simpl in Hk.
  destruct (pretty_N_go_nonempty x "" Hx) as (c & s' & Hs).
  rewrite Hs in *. pose proof Hdec as Hc. cbn [decimalDigits] in Hc.
  apply andb_true_iff in Hc as [Hc _].
  destruct (decimal_char c Hc) as (Hws & Hminus & Hplus & _).
  unfold Config.parseInt. cbn [trimStart]. rewrite Hws.
  assert (String.prefix "-" (String c s') = false) as ->.
  { cbn [String.prefix]. by destruct (ascii_dec "-" c). }
  assert (String.prefix "+" (String c s') = false) as ->.
  { cbn [String.prefix]. by destruct (ascii_dec "+" c). }
  cbn [orb]. rewrite (decimal_not_hex _ Hdec), Hk. f_equal. lia.
Qed.

Lemma parseInt_signed (x : N) :
  (0 < x)%N →
  Config.parseInt (String "-" (pretty_N_go x ""))
  = Config.toDouble (- Z.of_N x).
Proof.
  intros Hx.
  pose proof (decimalDigits_pretty_go x "" eq_refl) as Hdec.
  destruct (digitsValue_pretty_go x Hx) as [k Hk].
  specialize (Hk None ""). simpl in Hk.
  destruct (pretty_N_go_nonempty x "" Hx) as (c & s' & Hs).
  rewrite Hs in *. pose proof Hdec as Hc. cbn [decimalDigits] in Hc.
  apply andb_true_iff in Hc as [Hc _].
  destruct (decimal_char c Hc) as (Hws & Hminus & Hplus & _).
  unfold Config.parseInt. cbn [trimStart].
  change (isWhiteSpace "-") with false. cbn iota.
  change (String.prefix "-" (String "-" (String c s'))) with true.
  cbn [orb JS.dropStr]. rewrite (decimal_not_hex _ Hdec), Hk. f_equal; lia.
Qed.

(** The numeral of an integer is read as the double nearest to it. *)
Lemma parseInt_pretty (n : Z) : Config.parseInt (pretty n) = Config.toDouble n.
Proof.
  destruct n as [|p|p]; [done| |].
  - change (pretty (Z.pos p)) with (pretty_N_go (N.pos p) "").
    by rewrite parseInt_unsigned.
  - change (pretty (Z.neg p)) with (String "-" (pretty_N_go (N.pos p) "")).
    by rewrite parseInt_signed.
Qed.

Lemma toDouble_exact (n : Z) :
  - 2 ^ 53 < n < 2 ^ 53 → Config.toDouble n = Config.Finite n.
Proof.
  intros Hn. unfold Config.toDouble.
  destruct (Z.ltb_spec (Z.abs n) (2 ^ 53)) as [_|Hge]; [done|]. lia.
Qed.

Lemma pretty_Z_truthy (n : Z) : JS.truthy (pretty n) = true.
Proof.
  destruct n as [|p|p]; [done| |done].
  change (pretty (Z.pos p)) with (pretty_N_go (N.pos p) "").
  by destruct (pretty_N_go_nonempty (N.pos p) "" eq_refl) as (c & s' & ->).
Qed.

Lemma orDefault_truthy (a : option string) (b : string) :
  JS.truthyOpt a = true → ∃ s, a = Some s ∧ Config.orDefault a b = s.
Proof. destruct a as [[|c s]|]; [done| |done]. intros _. by eexists. Qed.

Lemma orDefault_falsy (a : option string) (b : string) :
  JS.truthyOpt a = false → Config.orDefault a b = b.
Proof. by destruct a as [[|c s]|]. Qed.

Lemma orDefault_env (a : option string) (b b' : string) :
  JS.truthyOpt a = true → Config.orDefault a b = Config.orDefault a b'.
Proof. by destruct a as [[|c s]|]. Qed.

Lemma constructor_cases (env : gmap string string)
    (config : option Config.ConfigType) :
  (JS.truthyOpt (env !! "GOOGLE_API_KEY") = false
   ∧ Config.constructor env config
     = inl (ErrorObject "GOOGLE_API_KEY is required in environment variables"))
  ∨ (∃ key rest,
       env !! "GOOGLE_API_KEY" = Some (String key rest)
       ∧ ∃ c, Config.constructor env config = inr c
              ∧ Config.googleApiKey c = String key rest).
Proof.
  unfold Config.constructor.
  destruct (env !! "GOOGLE_API_KEY") as [[|key rest]|] eqn:Hkey; simpl;
    [by left| |by left].
  right. exists key, rest. split; [done|]. by eexists.
Qed.

(** Configuration: the constructor throws exactly when GOOGLE_API_KEY is
    absent from the environment or empty, with the message that names the
    variable; otherwise it returns an object that carries the key, whatever
    the request configuration. *)
Theorem Configuration_requires_key (env : gmap string string)
    (config : option Config.ConfigType) :
  (JS.truthyOpt (env !! "GOOGLE_API_KEY") = false
   ↔ ∃ error, Config.constructor env config = inl error)
  ∧ (JS.truthyOpt (env !! "GOOGLE_API_KEY") = false →
     Config.constructor env config
     = inl (ErrorObject "GOOGLE_API_KEY is required in environment variables"))
  ∧ (∀ key, env !! "GOOGLE_API_KEY" = Some key → key ≠ "" →
       ∃ c, Config.constructor env config = inr c
            ∧ Config.googleApiKey c = key).
Proof.
  destruct (constructor_cases env config)
    as [[Hkey He]|(key & rest & Hkey & c & Hc & Hk)].
  - split; [split; [by eexists|done]|]. split; [done|].
    intros key Hsome Hne. rewrite Hsome in Hkey. by destruct key.
  - split; [|split].
    + rewrite Hkey, Hc. split; [done|]. by intros [error ?].
    + by rewrite Hkey.
    + intros key' Hsome _. exists c. split; [done|]. congruence.
Qed.

(** Configuration: a variable of the environment that is set and not empty
    decides its field; the request configuration cannot override it.  The
    server fields never depend on the request. *)
Theorem Configuration_environment_first (env : gmap string string)
    (config config' : option Config.ConfigType)
    (c c' : Config.Configuration) :
  Config.constructor env config = inr c →
  Config.constructor env config' = inr c' →
  (JS.truthyOpt (env !! "QUERY_GENERATOR_MODEL") = true →
   Config.queryGeneratorModel c = Config.queryGeneratorModel c')
  ∧ (JS.truthyOpt (env !! "REFLECTION_MODEL") = true →
     Config.reflectionModel c = Config.reflectionModel c')
  ∧ (JS.truthyOpt (env !! "ANSWER_MODEL") = true →
     Config.answerModel c = Config.answerModel c')
  ∧ (JS.truthyOpt (env !! "NUMBER_OF_INITIAL_QUERIES") = true →
     Config.numberOfInitialQueries c = Config.numberOfInitialQueries c')
  ∧ (JS.truthyOpt (env !! "MAX_RESEARCH_LOOPS") = true →
     Config.maxResearchLoops c = Config.maxResearchLoops c')
  ∧ Config.port c = Config.port c'
  ∧ Config.nodeEnv c = Config.nodeEnv c'
  ∧ Config.googleApiKey c = Config.googleApiKey c'
  ∧ Config.langgraphApiUrl c = Config.langgraphApiUrl c'
  ∧ Config.logLevel c = Config.logLevel c'
  ∧ Config.corsOrigin c = Config.corsOrigin c'.
Proof.
  unfold Config.constructor.
  destruct (negb _); [done|]. intros [= <-] [= <-].
  repeat split; try done; intros Henv; cbn;
    first [by apply orDefault_env|f_equal; by apply orDefault_env].
Qed.

Lemma Configuration_environment_first_witness :
  ∃ c c',
    Config.fromRunnableConfig demoEnv demoConfig = inr c
    ∧ Config.constructor demoEnv None = inr c'
    ∧ Config.maxResearchLoops c = Config.maxResearchLoops c'.
Proof.
  eexists _, _. split; [vm_compute; reflexivity|].
  split; [vm_compute; reflexivity|].
  refine (proj1 (proj2 (proj2 (proj2 (proj2
            (Configuration_environment_first demoEnv (Some demoConfig) None
               _ _ _ _))))) _); by vm_compute.
Defined.

Lemma parseInt_not_a_number (c : ascii) (rest : string) :
  isWhiteSpace c = false → c ≠ "-"%char → c ≠ "+"%char →
  isDecimalDigit c = false →
  Config.parseInt (String c rest) = Config.NaN.
Proof.
  intros Hws Hminus Hplus Hdigit.
  unfold Config.parseInt. cbn [trimStart]. rewrite Hws.
  assert (String.prefix "-" (String c rest) = false) as ->.
  { cbn [String.prefix]. by destruct (ascii_dec "-" c). }
  assert (String.prefix "+" (String c rest) = false) as ->.
  { cbn [String.prefix]. by destruct (ascii_dec "+" c). }
  assert (c ≠ "0"%char) as Hzero by (by intros ->).
  cbn [orb].
  assert (String.prefix "0x" (String c rest) = false) as ->.
  { cbn [String.prefix]. by destruct (ascii_dec "0" c). }
  assert (String.prefix "0X" (String c rest) = false) as ->.
  { cbn [String.prefix]. by destruct (ascii_dec "0" c). }
  cbn [orb Config.digitsValue]. unfold isDecimalDigit in Hdigit.
  destruct (Config.digitOf c) as [d|]; [|done]. by rewrite Hdigit.
Qed.

(** Configuration: a research-loop limit written as the decimal numeral
    of an integer is read as the double nearest to that integer, which is
    the integer itself when it lies strictly between -2^53 and 2^53; it is
    read from the environment or, when the variable is unset or empty, from
    the request; with neither, the limit is 2.  From 2^53 on the numeral is
    rounded: 9007199254740993 gives 9007199254740992.  A value of the
    variable that begins with neither white space, a sign nor a digit makes
    the limit NaN. *)
Theorem Configuration_limit (env : gmap string string)
    (config : option Config.ConfigType) (c : Config.Configuration) :
  Config.constructor env config = inr c →
  (∀ n : Z, env !! "MAX_RESEARCH_LOOPS" = Some (pretty n) →
     Config.maxResearchLoops c = Config.toDouble n
     ∧ (- 2 ^ 53 < n < 2 ^ 53 →
        Config.maxResearchLoops c = Config.Finite n))
  ∧ (∀ n : Z,
       JS.truthyOpt (env !! "MAX_RESEARCH_LOOPS") = false →
       Config.max_research_loops (Config.configurableOf config)
       = Some (pretty n) →
       Config.maxResearchLoops c = Config.toDouble n
       ∧ (- 2 ^ 53 < n < 2 ^ 53 →
          Config.maxResearchLoops c = Config.Finite n))
  ∧ (JS.truthyOpt (env !! "MAX_RESEARCH_LOOPS") = false →
     JS.truthyOpt (Config.max_research_loops (Config.configurableOf config))
     = false →
     Config.maxResearchLoops c = Config.Finite 2)
  ∧ (env !! "MAX_RESEARCH_LOOPS" = Some "9007199254740993" →
     Config.maxResearchLoops c = Config.Finite 9007199254740992)
  ∧ (∀ ch rest,
       env !! "MAX_RESEARCH_LOOPS" = Some (String ch rest) →
       isWhiteSpace ch = false → ch ≠ "-"%char → ch ≠ "+"%char →
       isDecimalDigit ch = false →
       Config.maxResearchLoops c = Config.NaN).
Proof.
  unfold Config.constructor.
  destruct (negb _); [done|]. intros [= <-].
  cbn [Config.maxResearchLoops].
  assert (Hnum : ∀ (n : Z) b, Config.orDefault (Some (pretty n)) b = pretty n).
  { intros n b. unfold Config.orDefault, JS.orElse.
    by rewrite pretty_Z_truthy. }
  split; [|split; [|split; [|split]]].
  - intros n ->. rewrite Hnum, parseInt_pretty. split; [done|].
    apply toDouble_exact.
  - intros n Henv ->.
    rewrite (orDefault_falsy _ _ Henv), Hnum, parseInt_pretty.
    split; [done|]. apply toDouble_exact.
  - intros Henv Hreq.
    by rewrite (orDefault_falsy _ _ Henv), (orDefault_falsy _ _ Hreq).
  - intros ->. by vm_compute.
  - intros ch rest -> Hws Hminus Hplus Hdigit.
    by apply parseInt_not_a_number.
Qed.

Lemma Configuration_limit_witness :
  ∃ c, Config.fromRunnableConfig (<["GOOGLE_API_KEY" := "key"]> ∅) demoConfig
       = inr c
       ∧ Config.maxResearchLoops c = Config.Finite 7.
Proof.
  eexists. split; [vm_compute; reflexivity|].
  refine (proj2 (proj1 (proj2 (Configuration_limit
                                 (<["GOOGLE_API_KEY" := "key"]> ∅)
                                 (Some demoConfig) _ _)) 7 _ _) _);
    by vm_compute.
Defined.

(** GET /agent/config against the Configuration object built under the
    same environment for a request: a model reported by the route equals
    the field of that object exactly when its variable is set in the
    environment or the request configuration leaves the default in place;
    the two limits reported equal the fields of the object when the
    variable is set or the request gives none.  This compares the route
    with the fields of the object, not with the model names or the limit
    the nodes go on to use, which they read from the state first. *)
Theorem agentConfig_reports (env : gmap string string)
    (config : option Config.ConfigType) (c : Config.Configuration) :
  Config.constructor env config = inr c →
  (Routes.models_queryGenerator (Routes.agentConfig env)
   = Config.queryGeneratorModel c
   ↔ JS.truthyOpt (env !! "QUERY_GENERATOR_MODEL") = true
     ∨ Config.orDefault
         (Config.query_generator_model (Config.configurableOf config))
         "gemini-2.0-flash" = "gemini-2.0-flash")
  ∧ (Routes.models_reflection (Routes.agentConfig env)
     = Config.reflectionModel c
     ↔ JS.truthyOpt (env !! "REFLECTION_MODEL") = true
       ∨ Config.orDefault
           (Config.reflection_model (Config.configurableOf config))
           "gemini-2.5-flash-preview-04-17"
         = "gemini-2.5-flash-preview-04-17")
  ∧ (Routes.models_answer (Routes.agentConfig env) = Config.answerModel c
     ↔ JS.truthyOpt (env !! "ANSWER_MODEL") = true
       ∨ Config.orDefault
           (Config.answer_model (Config.configurableOf config))
           "gemini-2.5-pro-preview-05-06"
         = "gemini-2.5-pro-preview-05-06")
  ∧ (JS.truthyOpt (env !! "NUMBER_OF_INITIAL_QUERIES") = true
     ∨ JS.truthyOpt
         (Config.number_of_initial_queries (Config.configurableOf config))
       = false →
     Routes.limits_numberOfInitialQueries (Routes.agentConfig env)
     = Config.numberOfInitialQueries c)
  ∧ (JS.truthyOpt (env !! "MAX_RESEARCH_LOOPS") = true
     ∨ JS.truthyOpt (Config.max_research_loops (Config.configurableOf config))
       = false →
     Routes.limits_maxResearchLoops (Routes.agentConfig env)
     = Config.maxResearchLoops c).
Proof.
  unfold Config.constructor.
  destruct (negb _); [done|]. intros [= <-].
  cbn [Config.queryGeneratorModel Config.reflectionModel Config.answerModel
       Config.numberOfInitialQueries Config.maxResearchLoops
       Routes.agentConfig Routes.models_queryGenerator
       Routes.models_reflection Routes.models_answer
       Routes.limits_numberOfInitialQueries Routes.limits_maxResearchLoops].
  assert (Hmodel : ∀ (a : option string) (used default : string),
            Config.orDefault a default = Config.orDefault a used
            ↔ JS.truthyOpt a = true ∨ used = default).
  { intros a used d. destruct (JS.truthyOpt a) eqn:Ha.
    - split; [by left|]. intros _. by apply orDefault_env.
    - rewrite !(orDefault_falsy _ _ Ha). split; [by right|].
      by intros [?| ->]. }
  assert (Hlimit : ∀ (a b : option string) (default : string),
            JS.truthyOpt a = true ∨ JS.truthyOpt b = false →
            Config.orDefault a default
            = Config.orDefault a (Config.orDefault b default)).
  { intros a b d [Ha|Hb]; [by apply orDefault_env|].
    by rewrite (orDefault_falsy b d Hb). }
  split; [apply Hmodel|]. split; [apply Hmodel|]. split; [apply Hmodel|].
  split; intros H; f_equal; by apply Hlimit.
Qed.

Lemma agentConfig_reports_witness :
  ∃ c, Config.fromRunnableConfig demoEnv demoConfig = inr c
       ∧ Routes.limits_maxResearchLoops (Routes.agentConfig demoEnv)
         = Config.maxResearchLoops c
       ∧ Routes.models_queryGenerator (Routes.agentConfig demoEnv)
         ≠ Config.queryGeneratorModel c.
Proof.
  eexists. split; [vm_compute; reflexivity|].
  pose proof (agentConfig_reports demoEnv (Some demoConfig) _ eq_refl)
    as (Hmodel & _ & _ & _ & Hlimit).
  split; [apply Hlimit; by left|].
  intros Heq. apply Hmodel in Heq as [Heq|Heq]; by vm_compute in Heq.
Defined.

(** ** POST /agent/invoke on the state finalizeAnswer leaves *)




(** ** The nodes along the edges of the graph *)

Lemma queriesOf_imap (f : nat → Z) (queries : list string) :
  queriesOf (imap (λ idx followUpQuery,
                     {| node := "webResearch";
                        args := {| ws_searchQuery := followUpQuery;
                                   ws_id := f idx |} |})
                  queries)
  = queries.
Proof.
  unfold queriesOf. apply list_eq. intros i.
  rewrite list_lookup_fmap, list_lookup_imap.
  by destruct (queries !! i).
Qed.

(** generateQuery and continueToWebResearch: the fan-out after
    generateQuery dispatches exactly the queries the model returned, in
    their order, numbered from 0 and all to the research node; the query
    list of the state is replaced, not extended, so the fan-out does not
    depend on the state before; the accumulated fields are left as they
    were. *)
Theorem generateQuery_dispatch (st : OverallState)
    (configuration : Configuration) (result : SearchQueryListResponse) :
  queriesOf (Nodes.continueToWebResearch
               (generatedState st configuration result))
  = sq_query result
  ∧ idsOf (Nodes.continueToWebResearch
             (generatedState st configuration result))
    = idsFrom 0 (length (sq_query result))
  ∧ (∀ send,
       send ∈ Nodes.continueToWebResearch
                (generatedState st configuration result) →
       node send = "webResearch")
  ∧ (∀ st',
       Nodes.continueToWebResearch (generatedState st' configuration result)
       = Nodes.continueToWebResearch (generatedState st configuration result))
  ∧ messages (generatedState st configuration result) = messages st
  ∧ searchQuery (generatedState st configuration result) = searchQuery st
  ∧ followUpQueries (generatedState st configuration result)
    = followUpQueries st.
Proof.
  split; [|split; [|split; [|done]]].
  - unfold Nodes.continueToWebResearch. cbn [generatedState applyUpdate
      queryList Nodes.generateQuery u_queryList StateReducers.simpleValue].
    unfold queriesOf. apply list_eq. intros i.
    rewrite list_lookup_fmap, list_lookup_imap, list_lookup_fmap.
    by destruct (sq_query result !! i).
  - rewrite continueToWebResearch_ids. cbn. by rewrite length_fmap.
  - intros send Hsend. unfold Nodes.continueToWebResearch in Hsend.
    apply list_elem_of_lookup_1 in Hsend as [i Hi].
    rewrite list_lookup_imap in Hi.
    destruct (queryList _ !! i); by simplify_eq/=.
Qed.

(** reflection and evaluateResearch: when the research goes on after a
    reflection, the fan-out dispatches the follow-up queries of the earlier
    turns again, followed by the new ones, since followUpQueries
    accumulates; the items are numbered on from the length of
    searchQuery. *)
Theorem reflection_redispatch (configuration : Configuration)
    (joined : OverallState) (result : ReflectionResponse)
    (items : list SendObject) :
  Nodes.evaluateResearch (reflectedState configuration joined result)
    configuration = Sends items →
  queriesOf items = followUpQueries joined ++ r_followUpQueries result
  ∧ idsOf items
    = idsFrom (Z.of_nat (length (searchQuery joined)))
        (length (followUpQueries joined) + length (r_followUpQueries result))
  ∧ r_isSufficient result = false
  ∧ researchLoopCount joined + 1
    < effectiveMaxLoops joined configuration.
Proof.
  intros He.
  destruct (reflectedState_fields configuration joined result)
    as (Hc & Hm & Hs & _ & Hran & Hf).
  destruct (evaluateResearch_cases (reflectedState configuration joined result)
              configuration) as [[He' _]|(He' & Hsuff & Hlt)]; [congruence|].
  rewrite He' in He. injection He as <-.
  rewrite queriesOf_imap, idsOf_imap, length_app.
  split; [done|]. split; [done|]. split; [congruence|].
  unfold effectiveMaxLoops in *. rewrite Hm in Hlt. lia.
Qed.

Lemma reflection_redispatch_witness :
  ∃ items,
    Nodes.evaluateResearch
      (reflectedState demoConfiguration joinedDemo demoReflection)
      demoConfiguration = Sends items
    ∧ queriesOf items = ["earlier follow-up"; "new follow-up"].
Proof.
  eexists. split; [vm_compute; reflexivity|].
  refine (proj1 (reflection_redispatch demoConfiguration joinedDemo
                   demoReflection _ _)).
  vm_compute. reflexivity.
Defined.

(** The research-loop limit of the state: no node writes it, the routes
    start every run with the limit 2 of the state, and with a limit in the
    state evaluateResearch does not read the limit of the
    configuration. *)
Theorem maxResearchLoops_from_state :
  (∀ st configuration result,
     maxResearchLoops
       (applyUpdate st (Nodes.generateQuery st configuration result))
     = maxResearchLoops st)
  ∧ (∀ st state configuration outcome,
       maxResearchLoops
         (applyUpdate st (Nodes.webResearch state configuration outcome))
       = maxResearchLoops st)
  ∧ (∀ st configuration result,
       maxResearchLoops
         (applyUpdate st (Nodes.reflection st configuration result))
       = maxResearchLoops st)
  ∧ (∀ st configuration content,
       maxResearchLoops
         (applyUpdate st (Nodes.finalizeAnswer st configuration content))
       = maxResearchLoops st)
  ∧ (∀ input, maxResearchLoops (Graph.initialStateOf input) = Some 2)
  ∧ (∀ st configuration limit,
       maxResearchLoops st ≠ None →
       Nodes.evaluateResearch st (withMaxResearchLoops configuration limit)
       = Nodes.evaluateResearch st configuration).
Proof.
  split; [done|]. split.
  { intros st state configuration outcome.
    by destruct (webResearch_merge st state configuration outcome)
      as (_ & _ & _ & ? & _). }
  split; [done|]. split.
  { intros st configuration content. unfold Nodes.finalizeAnswer.
    by destruct (Nodes.finalizeSources _ _). }
  split; [done|].
  intros st configuration limit Hsome. unfold Nodes.evaluateResearch.
  by destruct (maxResearchLoops st).
Qed.

(** ** Runs of the graph: transcript, stalls and the configured limit *)

Lemma webResearch_untouched (st : OverallState) (state : WebSearchState)
    (configuration : Configuration) (outcome : Thrown + GoogleAIResponse) :
  messages (applyUpdate st (Nodes.webResearch state configuration outcome))
  = messages st
  ∧ followUpQueries
      (applyUpdate st (Nodes.webResearch state configuration outcome))
    = followUpQueries st
  ∧ sourcesGathered st
    `prefix_of` sourcesGathered
                  (applyUpdate st
                     (Nodes.webResearch state configuration outcome)).
Proof.
  destruct (webResearch_cases state configuration outcome)
    as [[error ->]|(modifiedText & sources & ->)]; simpl;
    repeat split; by eexists.
Qed.

Lemma mergeBranches_untouched (services : Graph.Services)
    (configuration : Configuration) (ordered : list SendObject) :
  ∀ st,
    messages (Graph.mergeBranches services configuration st ordered)
    = messages st
    ∧ followUpQueries (Graph.mergeBranches services configuration st ordered)
      = followUpQueries st
    ∧ sourcesGathered st
      `prefix_of` sourcesGathered
                    (Graph.mergeBranches services configuration st ordered).
Proof.
  unfold Graph.mergeBranches.
  induction ordered as [|send sends IH]; intros st; [done|].
  rewrite fmap_cons. cbn [foldl].
  destruct (webResearch_untouched st (args send) configuration
              (Graph.searcher services (args send))) as (Hm & Hf & Hs).
  destruct (IH (applyUpdate st (Nodes.webResearch (args send) configuration
                                  (Graph.searcher services (args send)))))
    as (Hm' & Hf' & Hs').
  rewrite Hm', Hf', Hm, Hf. split; [done|]. split; [done|]. by etrans.
Qed.

Lemma joinBranches_untouched (services : Graph.Services)
    (configuration : Configuration) (sends : list SendObject)
    (st : OverallState) :
  messages (Graph.joinBranches services configuration st sends) = messages st
  ∧ followUpQueries (Graph.joinBranches services configuration st sends)
    = followUpQueries st
  ∧ sourcesGathered st
    `prefix_of` sourcesGathered
                  (Graph.joinBranches services configuration st sends).
Proof. apply mergeBranches_untouched. Qed.

(** Over a run of the research loop (the turns of the executor as
    section 4.2 of the specification gives them): a run that finishes has
    added exactly one message to the transcript, the answer, and a run that
    stalls none; in both, researchLoopCount has grown by the number of
    fan-out groups, and the sources gathered before the run are still the
    first ones. *)
Theorem researchLoop_transcript (services : Graph.Services)
    (configuration : Configuration) (fuel : nat) (st : OverallState)
    (sends : list SendObject) (final : OverallState) :
  (Graph.researchLoop fuel services configuration st sends).2
  = Graph.Finished final
  ∨ (Graph.researchLoop fuel services configuration st sends).2
    = Graph.Stalled final →
  ((Graph.researchLoop fuel services configuration st sends).2
   = Graph.Finished final →
   ∃ text, messages final = messages st ++ [AIMessage text])
  ∧ ((Graph.researchLoop fuel services configuration st sends).2
     = Graph.Stalled final →
     messages final = messages st)
  ∧ researchLoopCount final
    = researchLoopCount st
      + Z.of_nat
          (length (Graph.researchLoop fuel services configuration st sends).1)
  ∧ sourcesGathered st `prefix_of` sourcesGathered final.
Proof.
  revert final.
  apply (researchLoop_induction services configuration
    (λ st sends groups res,
       ∀ final, res = Graph.Finished final ∨ res = Graph.Stalled final →
         (res = Graph.Finished final →
          ∃ text, messages final = messages st ++ [AIMessage text])
         ∧ (res = Graph.Stalled final → messages final = messages st)
         ∧ researchLoopCount final
           = researchLoopCount st + Z.of_nat (length groups)
         ∧ sourcesGathered st `prefix_of` sourcesGathered final));
    clear fuel st sends.
  - intros st sends final [?|?]; done.
  - intros st final [?|[= <-]]; [done|]. simpl.
    split; [done|]. split; [done|]. split; [lia|done].
  - intros st sends error _ _ final [?|?]; done.
  - intros st sends result error _ joined reflected _ _ _ final [?|?]; done.
  - intros st sends result content _ joined reflected _ _ _ final
      [[= <-]|?]; [|done].
    destruct (joinBranches_untouched services configuration sends st)
      as (Hjm & _ & Hjs).
    destruct (joinBranches_fields services configuration sends st)
      as (_ & _ & _ & Hjc & _).
    destruct (reflectedState_fields configuration joined result)
      as (Hrc & _).
    destruct (finalizeAnswer_fields reflected configuration content)
      as (Hfc & _ & _ & Hfs).
    fold joined in Hjm, Hjs, Hjc. fold reflected in Hrc.
    assert (Hmsg : ∃ text,
              messages (applyUpdate reflected
                          (Nodes.finalizeAnswer reflected configuration content))
              = messages st ++ [AIMessage text]).
    { unfold Nodes.finalizeAnswer.
      destruct (Nodes.finalizeSources content (sourcesGathered reflected))
        as [finalContent uniqueSources].
      exists finalContent. cbn. by rewrite <- Hjm. }
    split; [done|]. split; [done|]. split.
    + rewrite Hfc, Hrc, Hjc. simpl. lia.
    + rewrite Hfs. etrans; [exact Hjs|]. by apply prefix_app_r.
  - intros st sends result items groups res _ joined reflected _ _ IH final
      Hres.
    destruct (IH final Hres) as (Hfin & Hstall & Hcount & Hsrc).
    destruct (joinBranches_untouched services configuration sends st)
      as (Hjm & _ & Hjs).
    destruct (joinBranches_fields services configuration sends st)
      as (_ & _ & _ & Hjc & _).
    destruct (reflectedState_fields configuration joined result)
      as (Hrc & _).
    fold joined in Hjm, Hjs, Hjc. fold reflected in Hrc.
    assert (Hrm : messages reflected = messages st) by (by rewrite <- Hjm).
    assert (Hrs : sourcesGathered reflected = sourcesGathered joined) by done.
    rewrite Hrm in Hfin, Hstall. rewrite Hrs in Hsrc.
    split; [done|]. split; [done|]. split.
    + rewrite Hcount, Hrc, Hjc. simpl. lia.
    + by etrans.
Qed.

Lemma researchLoop_transcript_witness :
  messages demoFinal
  = messages (generatedState demoInitialState demoConfiguration
                {| sq_query := ["first query"; "second query"];
                   sq_rationale := "why" |})
    ++ [AIMessage "The answer."].
Proof.
  destruct (researchLoop_transcript demoServices demoConfiguration 5
              (generatedState demoInitialState demoConfiguration
                 {| sq_query := ["first query"; "second query"];
                    sq_rationale := "why" |})
              (Nodes.continueToWebResearch
                 (generatedState demoInitialState demoConfiguration
                    {| sq_query := ["first query"; "second query"];
                       sq_rationale := "why" |}))
              demoFinal) as (Hfin & _).
  { left. by vm_compute. }
  destruct Hfin as [text Htext]; [by vm_compute|].
  rewrite Htext. f_equal. f_equal.
  apply (f_equal last) in Htext. rewrite last_snoc in Htext.
  vm_compute in Htext. by simplify_eq.
Defined.

(** Over a run of the research loop (the turns of the executor as
    section 4.2 of the specification gives them): a run stalls, that is,
    ends without an answer because a fan-out is empty, only at its start:
    either the first fan-out is empty, or no follow-up query was in the
    state and the first reflection is not satisfied and asks for none.
    Once followUpQueries is not empty no later fan-out is empty. *)
Theorem researchLoop_stalls_early (services : Graph.Services)
    (configuration : Configuration) (fuel : nat) (st : OverallState)
    (sends : list SendObject) (last : OverallState) :
  (Graph.researchLoop fuel services configuration st sends).2
  = Graph.Stalled last →
  (sends = []
   ∧ (Graph.researchLoop fuel services configuration st sends).1 = []
   ∧ last = st)
  ∨ (followUpQueries st = []
     ∧ (Graph.researchLoop fuel services configuration st sends).1 = [sends]
     ∧ ∃ result,
         Graph.reflector services
           (Graph.joinBranches services configuration st sends) = inr result
         ∧ r_followUpQueries result = []
         ∧ r_isSufficient result = false
         ∧ last
           = reflectedState configuration
               (Graph.joinBranches services configuration st sends) result).
Proof.
  revert last.
  enough (Hboth :
    ((sends = [] →
      (Graph.researchLoop fuel services configuration st sends).1 = [])
     ∧ ∀ last,
         (Graph.researchLoop fuel services configuration st sends).2
         = Graph.Stalled last →
         (sends = []
          ∧ (Graph.researchLoop fuel services configuration st sends).1 = []
          ∧ last = st)
         ∨ (followUpQueries st = []
            ∧ (Graph.researchLoop fuel services configuration st sends).1
              = [sends]
            ∧ ∃ result,
                Graph.reflector services
                  (Graph.joinBranches services configuration st sends)
                = inr result
                ∧ r_followUpQueries result = []
                ∧ r_isSufficient result = false
                ∧ last
                  = reflectedState configuration
                      (Graph.joinBranches services configuration st sends)
                      result))) by apply Hboth.
  apply (researchLoop_induction services configuration
    (λ st sends groups res,
       (sends = [] → groups = [])
       ∧ ∀ last, res = Graph.Stalled last →
           (sends = [] ∧ groups = [] ∧ last = st)
           ∨ (followUpQueries st = []
              ∧ groups = [sends]
              ∧ ∃ result,
                  Graph.reflector services
                    (Graph.joinBranches services configuration st sends)
                  = inr result
                  ∧ r_followUpQueries result = []
                  ∧ r_isSufficient result = false
                  ∧ last
                    = reflectedState configuration
                        (Graph.joinBranches services configuration st sends)
                        result))); clear fuel st sends.
  - done.
  - intros st. split; [done|]. intros last [= <-]. by left.
  - done.
  - done.
  - done.
  - intros st sends result items groups res Hne joined reflected Hr He
      [Hempty IH].
    split; [done|]. intros last Hres.
    destruct (evaluateResearch_items reflected configuration items He)
      as (_ & Hlen & _).
    destruct (evaluateResearch_cases reflected configuration)
      as [[He' _]|(_ & Hsuff & _)]; [congruence|].
    destruct (reflectedState_fields configuration joined result)
      as (_ & _ & Hs & _ & _ & Hf).
    destruct (joinBranches_untouched services configuration sends st)
      as (_ & Hjf & _).
    fold joined in Hjf. fold reflected in Hs, Hf.
    right. destruct (IH last Hres) as [(-> & -> & ->)|(Hnone & Hgroups & _)].
    + symmetry in Hlen. apply length_zero_iff_nil in Hlen.
      rewrite Hf, Hjf in Hlen. apply app_eq_nil in Hlen as [Hst Hnew].
      split; [done|]. split; [done|]. exists result.
      repeat split; [done|done|congruence].
    + rewrite Hnone in Hlen. apply length_zero_iff_nil in Hlen.
      rewrite (Hempty Hlen) in Hgroups. done.
Qed.

Lemma researchLoop_stalls_early_witness :
  ∃ last,
    (Graph.runGraph 5 silentServices demoConfiguration demoInitialState).2
    = Graph.Stalled last
    ∧ length
        (Graph.runGraph 5 silentServices demoConfiguration demoInitialState).1
      = 1%nat.
Proof.
  eexists. split; [vm_compute; reflexivity|].
  destruct (researchLoop_stalls_early silentServices demoConfiguration 5
              (generatedState demoInitialState demoConfiguration
                 {| sq_query := ["first query"]; sq_rationale := "why" |})
              (Nodes.continueToWebResearch
                 (generatedState demoInitialState demoConfiguration
                    {| sq_query := ["first query"]; sq_rationale := "why" |}))
              _ ltac:(vm_compute; reflexivity))
    as [(Hempty & _)|(_ & Hgroups & _)]; [by vm_compute in Hempty|].
  change (Graph.runGraph 5 silentServices demoConfiguration demoInitialState)
    with (Graph.researchLoop 5 silentServices demoConfiguration
            (generatedState demoInitialState demoConfiguration
               {| sq_query := ["first query"]; sq_rationale := "why" |})
            (Nodes.continueToWebResearch
               (generatedState demoInitialState demoConfiguration
                  {| sq_query := ["first query"]; sq_rationale := "why" |}))).
  by rewrite Hgroups.
Defined.

Lemma researchLoop_limit_of_state (services : Graph.Services)
    (configuration : Configuration) (limit : Z) (fuel : nat) :
  ∀ st sends,
    maxResearchLoops st ≠ None →
    Graph.researchLoop fuel services
      (withMaxResearchLoops configuration limit) st sends
    = Graph.researchLoop fuel services configuration st sends.
Proof.
  induction fuel as [|fuel IH]; intros st sends Hsome; [done|].
  cbn [Graph.researchLoop]. destruct sends as [|send sends]; [done|].
  set (all := send :: sends).
  change (Graph.joinBranches services
            (withMaxResearchLoops configuration limit) st all)
    with (Graph.joinBranches services configuration st all).
  set (joined := Graph.joinBranches services configuration st all).
  destruct (Graph.reflector services joined) as [error|result]; [done|].
  change (applyUpdate joined
            (Nodes.reflection joined
               (withMaxResearchLoops configuration limit) result))
    with (reflectedState configuration joined result).
  fold (reflectedState configuration joined result).
  set (reflected := reflectedState configuration joined result).
  assert (Hreflected : maxResearchLoops reflected ≠ None).
  { destruct (reflectedState_fields configuration joined result)
      as (_ & Hrm & _).
    destruct (joinBranches_fields services configuration all st)
      as (_ & _ & _ & _ & Hjm).
    fold joined in Hjm. fold reflected in Hrm. congruence. }
  assert (He : Nodes.evaluateResearch reflected
                 (withMaxResearchLoops configuration limit)
               = Nodes.evaluateResearch reflected configuration).
  { unfold Nodes.evaluateResearch. by destruct (maxResearchLoops reflected). }
  rewrite He.
  destruct (Nodes.evaluateResearch reflected configuration)
    as [name|items]; [done|].
  by rewrite (IH reflected items Hreflected).
Qed.

(** Over a run of the graph (the turns of the executor as section 4.2 of
    the specification gives them): when the state a run starts from has a
    research-loop limit, as every run the routes start has, the limit of
    the configuration does not change the run: groups and result are the
    same for every configured limit. *)
Theorem runGraph_ignores_configured_limit (services : Graph.Services)
    (configuration : Configuration) (limit : Z) (fuel : nat)
    (initialState : OverallState) :
  maxResearchLoops initialState ≠ None →
  Graph.runGraph fuel services (withMaxResearchLoops configuration limit)
    initialState
  = Graph.runGraph fuel services configuration initialState.
Proof.
  intros Hsome. unfold Graph.runGraph.
  destruct (Graph.queryWriter services initialState) as [error|result];
    [done|].
  change (applyUpdate initialState
            (Nodes.generateQuery initialState
               (withMaxResearchLoops configuration limit) result))
    with (generatedState initialState configuration result).
  fold (generatedState initialState configuration result).
  by apply researchLoop_limit_of_state.
Qed.

Lemma runGraph_ignores_configured_limit_witness :
  Graph.runGraph 5 demoServices (withMaxResearchLoops demoConfiguration 10)
    (Graph.initialStateOf "question")
  = Graph.runGraph 5 demoServices demoConfiguration
      (Graph.initialStateOf "question").
Proof.
  by apply (runGraph_ignores_configured_limit demoServices demoConfiguration
              10 5 (Graph.initialStateOf "question")).
Defined.
